(** * Book recommender dashboard: the query and formatting pipeline

    A shallow embedding of [gradio-dashboard.py]: the catalog load with its
    derived thumbnail column, [retrieve_semantic_recommendations] and
    [recommend_books].  Python strings are sequences of code points, data
    frames are lists of rows held in a store of objects (so that the in-place
    sort has something to mutate), and exceptions are values. *)

From Stdlib Require Import ZArith NArith QArith Lia List String Ascii.
From Stdlib Require Import Numbers.DecimalString Numbers.DecimalPos Numbers.DecimalN.
From Stdlib Require Import Sorting.Sorted Sorting.Permutation.
From stdpp Require Import gmap list sorting.

Open Scope Z_scope.

(** ** Python strings *)

(** A character is a Unicode code point, a [str] the sequence of them. *)
Definition char := N.
Definition str := list char.

(** A literal of the source, written as a Rocq string (code points < 256). *)
Definition lit (s : string) : str :=
  List.map N_of_ascii (list_ascii_of_string s).

(** [str.isspace] on one character: the set CPython's
    [_PyUnicode_IsWhitespace] accepts; [str.split()] cuts on these. *)
Definition is_space (c : char) : bool :=
  ((9 <=? c) && (c <=? 13) || (28 <=? c) && (c <=? 32)
   || (c =? 133) || (c =? 160) || (c =? 5760)
   || (8192 <=? c) && (c <=? 8202)
   || (c =? 8232) || (c =? 8233) || (c =? 8239) || (c =? 8287)
   || (c =? 12288))%N.

Definition quote_char : char := 34%N.
Definition semicolon : char := 59%N.
Definition underscore : char := 95%N.

(** [s.split()]: the maximal runs of non-whitespace characters, in order.
    [cur] holds the token being scanned, last character first. *)
Fixpoint split_ws_from (cur : str) (s : str) : list str :=
  match s with
  | [] => match cur with [] => [] | _ => [rev cur] end
  | c :: s' =>
      if is_space c then
        match cur with
        | [] => split_ws_from [] s'
        | _ => rev cur :: split_ws_from [] s'
        end
      else split_ws_from (c :: cur) s'
  end.

Definition split_ws (s : str) : list str := split_ws_from [] s.

(** [s.split(sep)] for a one-character separator: never empty, keeps empty
    fields. *)
Fixpoint split_on_from (sep : char) (cur : str) (s : str) : list str :=
  match s with
  | [] => [rev cur]
  | c :: s' =>
      if (c =? sep)%N then rev cur :: split_on_from sep [] s'
      else split_on_from sep (c :: cur) s'
  end.

Definition split_on (sep : char) (s : str) : list str := split_on_from sep [] s.

(** [sep.join(l)]. *)
Fixpoint join (sep : str) (l : list str) : str :=
  match l with
  | [] => []
  | x :: l' => match l' with [] => x | _ => x ++ sep ++ join sep l' end
  end.

(** [s.lstrip(chars)] and [s.strip(chars)], the character set as a predicate. *)
Fixpoint lstrip (p : char -> bool) (s : str) : str :=
  match s with
  | [] => []
  | c :: s' => if p c then lstrip p s' else s
  end.

Definition strip (p : char -> bool) (s : str) : str :=
  rev (lstrip p (rev (lstrip p s))).

(** Exceptions the two functions can raise. *)
Inductive exn : Type :=
  | IndexError
  | ValueError
  | AttributeError
  | NameError.

Definition result (A : Type) : Type := (exn + A)%type.

(** [int(s)] in base 10: surrounding whitespace is ignored, then an optional
    sign, then decimal digits, single underscores allowed between digits.
    Only '0'..'9' count as digits: the hits are text decoded as Latin-1, where
    no other decimal digit exists.  More than [max_str_digits] digits are
    refused (CPython's default limit). *)
Definition is_digit (c : char) : bool := ((48 <=? c) && (c <=? 57))%N.

Definition max_str_digits : nat := 4300.

Fixpoint digits_from (acc : Z) (after_underscore : bool) (s : str) : option Z :=
  match s with
  | [] => if after_underscore then None else Some acc
  | c :: s' =>
      if is_digit c then digits_from (10 * acc + Z.of_N (c - 48)) false s'
      else if (c =? underscore)%N && negb after_underscore then digits_from acc true s'
      else None
  end.

Definition unsigned_of_str (s : str) : option Z :=
  match s with
  | [] => None
  | c :: _ =>
      if is_digit c && (length (List.filter is_digit s) <=? max_str_digits)%nat
      then digits_from 0 false s
      else None
  end.

Definition int_of_str (s : str) : result Z :=
  let body := strip is_space s in
  let parsed :=
    match body with
    | c :: rest =>
        if (c =? 45)%N then option_map Z.opp (unsigned_of_str rest)
        else if (c =? 43)%N then unsigned_of_str rest
        else unsigned_of_str body
    | [] => None
    end in
  match parsed with
  | Some z => inr z
  | None => inl ValueError
  end.

(** [l[0]]. *)
Definition first_item {A : Type} (l : list A) : result A :=
  match l with
  | [] => inl IndexError
  | x :: _ => inr x
  end.

(** A list comprehension whose element expression can raise: the first
    exception aborts it. *)
Fixpoint traverse {A B : Type} (f : A -> result B) (l : list A) : result (list B) :=
  match l with
  | [] => inr []
  | x :: l' =>
      match f x with
      | inl e => inl e
      | inr y =>
          match traverse f l' with
          | inl e => inl e
          | inr ys => inr (y :: ys)
          end
      end
  end.

(** ** The catalog *)

(** A text cell of the table; [None] is a missing value (NaN). *)
Definition cell := option str.

(** A row as [pd.read_csv] delivers it (the columns the script reads).  The
    emotion scores are the finite values of a float column, taken as the
    rationals they denote: the script only compares them. *)
Record csv_row : Type := {
  isbn13 : Z;
  title : cell;
  authors : cell;
  description : cell;
  simple_categories : cell;
  thumbnail : cell;
  joy : Q;
  surprise : Q;
  anger : Q;
  fear : Q;
  sadness : Q
}.

(** A row of [books] once the derived column is there. *)
Record book : Type := {
  csv : csv_row;
  large_thumbnail : str
}.

Abbreviation frame := (list book).

(** [column + s] on a text column: a missing value stays missing. *)
Definition series_add (c : cell) (s : str) : cell :=
  match c with
  | Some t => Some (t ++ s)
  | None => None
  end.

(** [np.where(column.isna(), dflt, column)], one cell. *)
Definition where_isna (c : cell) (dflt : str) : str :=
  match c with
  | None => dflt
  | Some t => t
  end.

Definition thumbnail_suffix : str := lit "&fife=w800".
Definition cover_not_found : str := lit "cover-not-found.jpg".

(** The two assignments to [books["large_thumbnail"]] after the load. *)
Definition load_books (rows : list csv_row) : frame :=
  List.map
    (fun r =>
       let large := series_add (thumbnail r) thumbnail_suffix in
       {| csv := r; large_thumbnail := where_isna large cover_not_found |})
    rows.

(** ** Data frame operations *)

(** [df.head(n)]: the first [n] rows, or all but the last [-n] when [n] is
    negative. *)
Definition head {A : Type} (n : Z) (l : list A) : list A :=
  if 0 <=? n then firstn (Z.to_nat n) l
  else firstn (length l - Z.to_nat (- n)) l.

(** [column.isin(values)], one cell. *)
Definition isin (values : list Z) (x : Z) : bool :=
  existsb (Z.eqb x) values.

(** [x == "..."] and [x != "..."] for an argument that may be [None]. *)
Definition arg_eq (x : option str) (s : str) : bool :=
  match x with
  | Some t => bool_decide (t = s)
  | None => false
  end.

(** [column == value], one cell: a missing cell or a [None] value compares
    unequal to everything. *)
Definition cell_eq (c : cell) (value : option str) : bool :=
  match c, value with
  | Some a, Some b => bool_decide (a = b)
  | _, _ => false
  end.

(** [sort_values(by=col, ascending=False)]: pandas reverses the rows, sorts
    them ascending and reverses the outcome.  The ascending sort is taken
    stable (rows with equal keys keep their order). *)
Fixpoint insert_by (key : book -> Q) (x : book) (l : frame) : frame :=
  match l with
  | [] => [x]
  | y :: l' =>
      if Qle_bool (key x) (key y) then x :: l else y :: insert_by key x l'
  end.

Definition sort_ascending (key : book -> Q) (l : frame) : frame :=
  List.fold_right (insert_by key) [] l.

Definition sort_descending (key : book -> Q) (l : frame) : frame :=
  rev (sort_ascending key (rev l)).

(** ** The store of data frame objects *)

Abbreviation ref := nat.
Abbreviation heap := (gmap nat (list book)).

(** A computation reads and writes the store and returns or raises; the store
    survives an exception. *)
Definition M (A : Type) : Type := heap -> result A * heap.

Definition ret {A : Type} (x : A) : M A := fun h => (inr x, h).

Definition raise {A : Type} (e : exn) : M A := fun h => (inl e, h).

Definition bind {A B : Type} (m : M A) (k : A -> M B) : M B :=
  fun h =>
    match m h with
    | (inl e, h') => (inl e, h')
    | (inr x, h') => k x h'
    end.

Definition lift {A : Type} (r : result A) : M A :=
  match r with
  | inl e => raise e
  | inr x => ret x
  end.

Declare Scope py_scope.
Delimit Scope py_scope with py.
Notation "x <- m ;; k" := (bind m (fun x => k))
  (at level 100, m at next level, right associativity) : py_scope.
Notation "m ;;; k" := (bind m (fun _ => k))
  (at level 100, right associativity) : py_scope.

(** A new data frame object. *)
Definition alloc (f : frame) : M ref :=
  fun h => let r := fresh (dom h) in (inr r, <[r := f]> h).

(** The rows of an object. *)
Definition get (r : ref) : M frame :=
  fun h =>
    match h !! r with
    | Some f => (inr f, h)
    | None => (inl NameError, h)
    end.

(** An in-place update of an object: every alias sees it. *)
Definition update (r : ref) (g : frame -> frame) : M unit :=
  fun h =>
    match h !! r with
    | Some f => (inr tt, <[r := g f]> h)
    | None => (inl NameError, h)
    end.

(** The global [books]. *)
Definition books : ref := 0%nat.

(** [df[mask]] and [df.head(n)]: each makes a new object; [sort_values] with
    [inplace=True] then replaces the rows of the object it is called on. *)
Definition df_select (r : ref) (mask : book -> bool) : M ref :=
  (f <- get r ;; alloc (List.filter mask f))%py.

Definition df_head (r : ref) (n : Z) : M ref :=
  (f <- get r ;; alloc (head n f))%py.

(** [df.sort_values(by=col, ascending=False, inplace=True)]. *)
Definition sort_values_inplace (r : ref) (key : book -> Q) : M unit :=
  update r (sort_descending key).

(** ** The recommendation query *)

(** [db_books.similarity_search(query, k)], by the page contents of the
    documents it returns.  The index is external: how it ranks, and a failure
    of the call, are outside the model. *)
Definition index : Type := str -> Z -> list str.

(** The element of the list comprehension: the page content with the double
    quotes at both ends stripped, its first whitespace-separated token, as an
    [int]. *)
Definition isbn_of_hit (page_content : str) : result Z :=
  match first_item (split_ws (strip (N.eqb quote_char) page_content)) with
  | inl e => inl e
  | inr tok => int_of_str tok
  end.

Definition retrieve_semantic_recommendations (db_books : index)
    (query : str) (category tone : option str)
    (initial_top_k final_top_k : Z) : M ref :=
  (let recs := db_books query initial_top_k in
   books_list <- lift (traverse isbn_of_hit recs) ;;
   matching <- df_select books (fun b => isin books_list (isbn13 (csv b))) ;;
   book_recs <- df_head matching initial_top_k ;;
   book_recs <-
     (if negb (arg_eq category (lit "All")) then
        same <- df_select book_recs
                  (fun b => cell_eq (simple_categories (csv b)) category) ;;
        df_head same final_top_k
      else df_head book_recs final_top_k) ;;
   (if arg_eq tone (lit "Happy") then
      sort_values_inplace book_recs (fun b => joy (csv b))
    else if arg_eq tone (lit "Surprising") then
      sort_values_inplace book_recs (fun b => surprise (csv b))
    else if arg_eq tone (lit "Angry") then
      sort_values_inplace book_recs (fun b => anger (csv b))
    else if arg_eq tone (lit "Suspenseful") then
      sort_values_inplace book_recs (fun b => fear (csv b))
    else if arg_eq tone (lit "Sad") then
      sort_values_inplace book_recs (fun b => sadness (csv b))
    else ret tt) ;;;
   ret book_recs)%py.

Definition default_initial_top_k : Z := 50.
Definition default_final_top_k : Z := 16.

(** ** The presentation formatter *)

(** A method call on a cell: a missing value is a float, which has no string
    methods. *)
Definition as_str (c : cell) : result str :=
  match c with
  | Some s => inr s
  | None => inl AttributeError
  end.

(** A cell inside an f-string. *)
Definition format_cell (c : cell) : str :=
  match c with
  | Some s => s
  | None => lit "nan"
  end.

(** [" ".join(description.split()[:30]) + "..."]. *)
Definition truncate_description (description : str) : str :=
  join (lit " ") (firstn 30 (split_ws description)) ++ lit "...".

(** The branch on [len(authors_split)]. *)
Definition author_phrase (authors : str) : str :=
  let authors_split := split_on semicolon authors in
  if (length authors_split =? 2)%nat then
    nth 0 authors_split [] ++ lit " and " ++ nth 1 authors_split []
  else if (2 <? length authors_split)%nat then
    join (lit ", ") (removelast authors_split) ++ lit ", and "
      ++ List.last authors_split []
  else authors.

(** The body of the loop over [recommendations.iterrows()]. *)
Definition format_row (row : book) : result (str * str) :=
  match as_str (description (csv row)) with
  | inl e => inl e
  | inr d =>
      let truncated_description := truncate_description d in
      match as_str (authors (csv row)) with
      | inl e => inl e
      | inr a =>
          let authors_str := author_phrase a in
          let caption :=
            format_cell (title (csv row)) ++ lit " by " ++ authors_str
              ++ lit ": " ++ truncated_description in
          inr (large_thumbnail row, caption)
      end
  end.

Definition recommend_books (db_books : index)
    (query : str) (category tone : option str) : M (list (str * str)) :=
  (recommendations <-
     retrieve_semantic_recommendations db_books query category tone
       default_initial_top_k default_final_top_k ;;
   rows <- get recommendations ;;
   lift (traverse format_row rows))%py.

(** ** The query without the store

    What [retrieve_semantic_recommendations] computes from the catalog rows
    and the ISBNs of the hits, step by step; [retrieve_run] below shows that
    the function leaves exactly these rows in the object it returns. *)

(** Step 3: the catalog rows whose ISBN is among the hits, in catalog order,
    cut to [initial_top_k]. *)
Definition candidates (tbl : frame) (books_list : list Z) (initial_top_k : Z) : frame :=
  head initial_top_k
    (List.filter (fun b => isin books_list (isbn13 (csv b))) tbl).

(** Step 4: the category filter and the cut to [final_top_k]. *)
Definition category_step (category : option str) (final_top_k : Z) (recs : frame) : frame :=
  if negb (arg_eq category (lit "All")) then
    head final_top_k
      (List.filter (fun b => cell_eq (simple_categories (csv b)) category) recs)
  else head final_top_k recs.

(** Step 5: the column the tone selects, if any. *)
Definition tone_column (tone : option str) : option (book -> Q) :=
  if arg_eq tone (lit "Happy") then Some (fun b => joy (csv b))
  else if arg_eq tone (lit "Surprising") then Some (fun b => surprise (csv b))
  else if arg_eq tone (lit "Angry") then Some (fun b => anger (csv b))
  else if arg_eq tone (lit "Suspenseful") then Some (fun b => fear (csv b))
  else if arg_eq tone (lit "Sad") then Some (fun b => sadness (csv b))
  else None.

Definition tone_step (tone : option str) (recs : frame) : frame :=
  match tone_column tone with
  | Some key => sort_descending key recs
  | None => recs
  end.

(** ** Predicates of the statements *)

(** [ts] are the whitespace-separated tokens of [d]: [d] is whitespace, or a
    token followed by the end or by a whitespace character, and so on. *)
Inductive separated : str -> list str -> Prop :=
  | separated_nil : separated [] []
  | separated_space c d ts :
      is_space c = true -> separated d ts -> separated (c :: d) ts
  | separated_token t d ts :
      t <> [] -> Forall (fun c => is_space c = false) t ->
      (d = [] \/ exists c d', d = c :: d' /\ is_space c = true) ->
      separated d ts -> separated (t ++ d) (t :: ts).

(** A name without the separator. *)
Definition plain (sep : char) (s : str) : Prop :=
  Forall (fun c => (c =? sep)%N = false) s.

(** The order the ascending sort works to. *)
Definition ascending (key : book -> Q) (a b : book) : Prop :=
  (key a <= key b)%Q.

(** A column is non-increasing down the rows. *)
Definition nonincreasing (key : book -> Q) (rows : frame) : Prop :=
  StronglySorted (fun a b => (key b <= key a)%Q) rows.

(** The store [h] has every object of [h0], unchanged. *)
Definition agrees (h0 h : heap) : Prop :=
  forall k, is_Some (h0 !! k) -> h !! k = h0 !! k.

(** [r] is an object made since [h0], holding [f]. *)
Definition owned (h0 h : heap) (r : ref) (f : frame) : Prop :=
  h !! r = Some f /\ h0 !! r = None /\ agrees h0 h.

(** The rows a call hands back: those of the object it returns, none when it
    raises. *)
Definition returned (out : result ref * heap) : option frame :=
  match out with
  | (inr r, h) => h !! r
  | (inl _, _) => None
  end.

(** ** Sample data *)

Definition sample_row (isbn : Z) (name category : string) (joy_score : Q) : csv_row :=
  {| isbn13 := isbn;
     title := Some (lit name);
     authors := Some (lit "Ann Author;Bo Writer");
     description := Some (lit "A story about forgiveness");
     simple_categories := Some (lit category);
     thumbnail := None;
     joy := joy_score;
     surprise := 0;
     anger := 0;
     fear := 0;
     sadness := 0 |}.

(** A catalog of three books and an index over their descriptions; one tagged
    description has no catalog row. *)
Definition dune : csv_row := sample_row 9780000000001 "Dune" "Fiction" (1 # 2).
Definition cosmos : csv_row := sample_row 9780000000002 "Cosmos" "Nonfiction" (1 # 4).
Definition emma : csv_row := sample_row 9780000000003 "Emma" "Fiction" (3 # 4).
Definition odes : csv_row := sample_row 9780000000004 "Odes" "Poetry" (1 # 4).

Definition shelf : frame := load_books [dune; cosmos; emma].

Definition shelf_index : index :=
  fun _ k =>
    head k
      [lit "9780000000003 A matchmaker misreads everyone";
       lit "9780000000001 A desert planet and its heir";
       lit "9780000000009 A book the catalog lacks"].

Definition shelf_store : heap := {[ books := shelf ]}.

(** A catalog in which an ISBN recurs: fifty rows of one book, then sixteen of
    another in a different category. *)
Definition reprints : frame :=
  load_books
    (repeat dune 50 ++ repeat odes 16).

Definition reprints_index : index :=
  fun _ k =>
    head k
      [lit "9780000000001 A desert planet and its heir";
       lit "9780000000004 Odes to plain things"].

(** A catalog with a row that has no authors. *)
Definition pamphlet : csv_row :=
  {| isbn13 := 9780000000005;
     title := Some (lit "Pamphlet");
     authors := None;
     description := Some (lit "A call to arms");
     simple_categories := Some (lit "Nonfiction");
     thumbnail := Some (lit "http://books.example/p?id=5");
     joy := 0;
     surprise := 0;
     anger := 1;
     fear := 0;
     sadness := 0 |}.

Definition stall_store : heap := {[ books := load_books [dune; pamphlet] ]}.

Definition stall_index : index :=
  fun _ k =>
    head k
      [lit "9780000000005 A call to arms";
       lit "9780000000001 A desert planet and its heir"].

(** An index with a line that carries no ISBN tag. *)
Definition untagged_index : index :=
  fun _ k => head k [lit "Untagged line of a description"].

(** ** The dropdown choices *)

(** [a < b] on strings: by code point, a proper prefix first. *)
Fixpoint str_lt (a b : str) : bool :=
  match a, b with
  | _, [] => false
  | [], _ :: _ => true
  | x :: a', y :: b' =>
      if (x <? y)%N then true
      else if (y <? x)%N then false
      else str_lt a' b'
  end.

(** [sorted(l)] on strings: stable, by [<]. *)
Fixpoint insert_str (x : str) (l : list str) : list str :=
  match l with
  | [] => [x]
  | y :: l' => if str_lt y x then y :: insert_str x l' else x :: l
  end.

Definition sorted (l : list str) : list str :=
  List.fold_right insert_str [] l.

(** [column.unique()]: the distinct cells in order of first appearance, a
    missing value at most once. *)
Fixpoint unique (l : list cell) : list cell :=
  match l with
  | [] => []
  | c :: l' =>
      c :: List.filter (fun d => negb (bool_decide (d = c))) (unique l')
  end.

(** The cells as strings, when none is missing. *)
Fixpoint all_present (l : list cell) : option (list str) :=
  match l with
  | [] => Some []
  | None :: _ => None
  | Some s :: l' =>
      match all_present l' with
      | Some ss => Some (s :: ss)
      | None => None
      end
  end.

(** Sorting a missing value (a float) together with a string raises. *)
Inductive sort_exn : Type :=
  | TypeError.

(** [categories = ["All"] + sorted(books["simple_categories"].unique())]:
    the strings are sorted; a lone missing value needs no comparison and
    stays; a missing value next to a string cannot be compared. *)
Definition categories (tbl : frame) : sort_exn + list cell :=
  let distinct := unique (List.map (fun b => simple_categories (csv b)) tbl) in
  match all_present distinct with
  | Some ss => inr (Some (lit "All") :: List.map Some (sorted ss))
  | None =>
      match distinct with
      | [c] => inr [Some (lit "All"); c]
      | _ => inl TypeError
      end
  end.

(** [tones = ["All"] + ["Happy", "Surprising", "Angry", "Suspenseful", "Sad"]]. *)
Definition tones : list str :=
  [lit "All"]
    ++ [lit "Happy"; lit "Surprising"; lit "Angry"; lit "Suspenseful"; lit "Sad"].

(** ** The tag of a description line *)

(** [str(n)] for a natural number: the decimal ISBN that starts a line of the
    tagged descriptions. *)
Definition decimal (n : N) : str :=
  lit (NilEmpty.string_of_uint (N.to_uint n)).

(** The caption and image of a row whose description and authors are there. *)
Definition gallery_item (row : book) (d a : str) : str * str :=
  (large_thumbnail row,
   format_cell (title (csv row)) ++ lit " by " ++ author_phrase a
     ++ lit ": " ++ truncate_description d).



(** ** Strings: splitting and joining *)

Section Strings.

Lemma split_ws_from_token t : forall cur d,
  Forall (fun c => is_space c = false) t ->
  split_ws_from cur (t ++ d) = split_ws_from (rev t ++ cur) d.
Proof.
  induction t as [|c t IH]; intros cur d Ht; simpl; [reflexivity|].
  inversion Ht as [|? ? Hc Ht']; subst.
  rewrite Hc, IH by assumption.
  now rewrite <- app_assoc.
Qed.

Lemma separated_split_ws_eq d ts : separated d ts -> split_ws d = ts.
Proof.
  unfold split_ws.
  induction 1 as [|c d ts Hc _ IH|t d ts Hne Ht Hd _ IH].
  - reflexivity.
  - simpl. now rewrite Hc.
  - rewrite split_ws_from_token by assumption.
    rewrite app_nil_r.
    assert (Hrev : rev t <> []).
    { intros E. apply Hne. now rewrite <- (rev_involutive t), E. }
    destruct Hd as [->|(c & d' & -> & Hc)].
    + inversion IH; subst. simpl.
      destruct (rev t) eqn:E; [congruence|].
      now rewrite <- E, rev_involutive.
    + simpl. rewrite Hc. simpl in IH. rewrite Hc in IH.
      destruct (rev t) eqn:E; [congruence|].
      now rewrite <- E, rev_involutive, IH.
Qed.

Lemma split_ws_from_separated d : forall cur,
  Forall (fun c => is_space c = false) cur ->
  separated (rev cur ++ d) (split_ws_from cur d).
Proof.
  induction d as [|c d IH]; intros cur Hcur; cbn [split_ws_from].
  - destruct cur as [|x cur]; [constructor|].
    apply (separated_token (rev (x :: cur)) [] []);
      [|now apply Forall_rev|now left|constructor].
    simpl. now destruct (rev cur).
  - destruct (is_space c) eqn:Hc.
    + destruct cur as [|x cur].
      * apply separated_space; [assumption|]. apply (IH []). constructor.
      * apply (separated_token (rev (x :: cur)) (c :: d)).
        -- simpl. now destruct (rev cur).
        -- now apply Forall_rev.
        -- right. now exists c, d.
        -- apply separated_space; [assumption|]. apply (IH []). constructor.
    + specialize (IH (c :: cur)). simpl in IH.
      rewrite <- app_assoc in IH. apply IH. now constructor.
Qed.

(** Every string has its tokens. *)
Lemma separated_split_ws d : separated d (split_ws d).
Proof. apply (split_ws_from_separated d []). constructor. Qed.

Lemma split_on_from_plain sep t : forall cur d,
  plain sep t ->
  split_on_from sep cur (t ++ d) = split_on_from sep (rev t ++ cur) d.
Proof.
  induction t as [|c t IH]; intros cur d Ht; simpl; [reflexivity|].
  inversion Ht as [|? ? Hc Ht']; subst.
  rewrite Hc, IH by assumption.
  now rewrite <- app_assoc.
Qed.

Lemma split_on_plain sep t : plain sep t -> split_on sep t = [t].
Proof.
  intros Ht. unfold split_on.
  rewrite <- (app_nil_r t) at 1.
  rewrite split_on_from_plain by assumption.
  simpl. now rewrite app_nil_r, rev_involutive.
Qed.

(** Splitting undoes joining, for names that are free of the separator. *)
Lemma split_on_join sep names :
  names <> [] -> Forall (plain sep) names ->
  split_on sep (join [sep] names) = names.
Proof.
  induction names as [|t names IH]; intros Hne Hall; [congruence|].
  inversion Hall as [|? ? Ht Hrest]; subst.
  destruct names as [|u names].
  - simpl. now apply split_on_plain.
  - change (join [sep] (t :: u :: names))
      with (t ++ [sep] ++ join [sep] (u :: names)).
    unfold split_on. rewrite split_on_from_plain by assumption.
    simpl ([sep] ++ _). cbn [split_on_from]. rewrite N.eqb_refl.
    rewrite app_nil_r, rev_involutive.
    f_equal. apply IH; [congruence|assumption].
Qed.

Lemma split_on_from_length sep s : forall cur,
  (1 <= length (split_on_from sep cur s))%nat.
Proof.
  induction s as [|c s IH]; intros cur; simpl; [lia|].
  destruct (c =? sep)%N; simpl; [lia|apply IH].
Qed.

Lemma join_cons sep x y l :
  join sep (x :: y :: l) = x ++ sep ++ join sep (y :: l).
Proof. reflexivity. Qed.

(** Joining undoes splitting, for every string. *)
Lemma join_split_on_from sep s : forall cur,
  join [sep] (split_on_from sep cur s) = rev cur ++ s.
Proof.
  induction s as [|c s IH]; intros cur; cbn [split_on_from].
  - simpl. now rewrite app_nil_r.
  - destruct (c =? sep)%N eqn:Hc.
    + apply N.eqb_eq in Hc. subst c.
      pose proof (split_on_from_length sep s []) as Hlen.
      destruct (split_on_from sep [] s) as [|y l] eqn:E; [simpl in Hlen; lia|].
      rewrite join_cons, <- E, IH. reflexivity.
    + rewrite IH. simpl. now rewrite <- app_assoc.
Qed.

Lemma join_split_on sep s : join [sep] (split_on sep s) = s.
Proof. apply (join_split_on_from sep s []). Qed.

Lemma split_on_from_plain_parts sep s : forall cur,
  plain sep cur -> Forall (plain sep) (split_on_from sep cur s).
Proof.
  induction s as [|c s IH]; intros cur Hcur; cbn [split_on_from].
  - constructor; [|constructor]. now apply Forall_rev.
  - destruct (c =? sep)%N eqn:Hc.
    + constructor; [now apply Forall_rev|]. apply IH. constructor.
    + apply IH. now constructor.
Qed.

(** Every string is its fields joined by the separator. *)
Lemma split_on_fields sep s :
  split_on sep s <> [] /\ Forall (plain sep) (split_on sep s).
Proof.
  split.
  - pose proof (split_on_from_length sep s []) as Hlen. unfold split_on.
    destruct (split_on_from sep [] s); [simpl in Hlen; lia|congruence].
  - apply split_on_from_plain_parts. constructor.
Qed.

End Strings.

(** ** Rows the formatter cannot caption *)

(** A row whose description or authors cell is missing makes the loop of
    [recommend_books] raise. *)
Lemma format_row_missing_cell (row : book) :
  description (csv row) = None \/ authors (csv row) = None ->
  format_row row = inl AttributeError.
Proof.
  unfold format_row. intros [E|E]; rewrite E; simpl; [reflexivity|].
  now destruct (description (csv row)).
Qed.

(** ** The catalog load and the formatter *)

(** C6: after the load every row keeps its source columns, and its
    large-thumbnail field is the placeholder path when the thumbnail URL is
    missing, and the URL followed by the fixed suffix when it is there. *)
Theorem large_thumbnail_fallback (rows : list csv_row) :
  List.map csv (load_books rows) = rows /\
  Forall (fun b =>
            match thumbnail (csv b) with
            | None => large_thumbnail b = lit "cover-not-found.jpg"
            | Some url => large_thumbnail b = url ++ lit "&fife=w800"
            end)
         (load_books rows).
Proof.
  unfold load_books. split.
  - rewrite List.map_map. simpl. apply List.map_id.
  - induction rows as [|r rows IH]; constructor; [|exact IH].
    simpl. now destruct (thumbnail r).
Qed.

(** C7: for a description whose whitespace-separated tokens are [tokens], the
    formatter yields the first 30 tokens joined by single spaces and then the
    ellipsis; with 30 or fewer tokens that is all the tokens joined by single
    spaces and then the ellipsis, with no special case. *)
Theorem description_truncation (d : str) (tokens : list str) :
  separated d tokens ->
  (30 < length tokens ->
   truncate_description d = join (lit " ") (firstn 30 tokens) ++ lit "...")%nat /\
  (length tokens <= 30 ->
   truncate_description d = join (lit " ") tokens ++ lit "...")%nat.
Proof.
  intros Hsep. apply separated_split_ws_eq in Hsep.
  unfold truncate_description. rewrite Hsep. split.
  - reflexivity.
  - intros Hlen. now rewrite firstn_all2.
Qed.

Lemma description_truncation_witness :
  separated (lit "  a tale   of two cities ")
    [lit "a"; lit "tale"; lit "of"; lit "two"; lit "cities"] /\
  truncate_description (lit "  a tale   of two cities ")
    = lit "a tale of two cities...".
Proof.
  assert (H : separated (lit "  a tale   of two cities ")
                [lit "a"; lit "tale"; lit "of"; lit "two"; lit "cities"]).
  { exact (separated_split_ws (lit "  a tale   of two cities ")). }
  split; [exact H|].
  refine (proj2 (description_truncation _ _ H) _).
  vm_compute. lia.
Defined.

(** C8: for authors given as names joined by semicolons, the phrase is the
    string itself for one name, "A and B" for two, and for three or more the
    names but the last joined by ", " and then ", and " and the last name. *)
Theorem author_phrase_by_count (names : list str) :
  names <> [] -> Forall (plain semicolon) names ->
  author_phrase (join [semicolon] names) =
    match names with
    | [a] => join [semicolon] names
    | [a; b] => a ++ lit " and " ++ b
    | _ => join (lit ", ") (removelast names) ++ lit ", and "
             ++ List.last names []
    end.
Proof.
  intros Hne Hplain. unfold author_phrase.
  rewrite split_on_join by assumption.
  destruct names as [|a [|b [|c rest]]]; [congruence|reflexivity..].
Qed.

Lemma author_phrase_by_count_witness :
  author_phrase (lit "A;B;C") = lit "A, B, and C".
Proof.
  refine (author_phrase_by_count [lit "A"; lit "B"; lit "C"] _ _).
  - discriminate.
  - repeat constructor.
Defined.

(** ** Data frame operations *)

Section Frames.

Context {A : Type}.

Lemma In_firstn (x : A) n l : In x (firstn n l) -> In x l.
Proof.
  revert l. induction n as [|n IH]; intros [|y l]; simpl; try tauto.
  intros [->|H]; [now left|right; now apply IH].
Qed.

Lemma In_head (x : A) n l : In x (head n l) -> In x l.
Proof. unfold head. destruct (0 <=? n); apply In_firstn. Qed.

Lemma head_length (n : Z) (l : list A) :
  0 <= n -> (Z.of_nat (length (head n l)) <= n)%Z.
Proof.
  intros Hn. unfold head.
  destruct (0 <=? n) eqn:E; [|lia].
  pose proof (firstn_le_length (Z.to_nat n) l). lia.
Qed.

Lemma head_all (n : Z) (l : list A) :
  (Z.of_nat (length l) <= n)%Z -> head n l = l.
Proof.
  intros Hn. unfold head.
  destruct (0 <=? n) eqn:E; [|lia].
  apply firstn_all2. lia.
Qed.

Lemma head_nil (n : Z) : head n (@nil A) = [].
Proof. unfold head. destruct (0 <=? n); apply firstn_nil. Qed.

End Frames.

Section Sorting.

Variable key : book -> Q.

Lemma insert_by_perm x l : Permutation (insert_by key x l) (x :: l).
Proof.
  induction l as [|y l IH]; simpl; [reflexivity|].
  destruct (Qle_bool (key x) (key y)); [reflexivity|].
  rewrite IH. apply perm_swap.
Qed.

Lemma sort_ascending_perm l : Permutation (sort_ascending key l) l.
Proof.
  induction l as [|x l IH]; simpl; [reflexivity|].
  rewrite insert_by_perm. now constructor.
Qed.

Lemma sort_descending_perm l : Permutation (sort_descending key l) l.
Proof.
  unfold sort_descending.
  rewrite <- Permutation_rev, sort_ascending_perm.
  symmetry. apply Permutation_rev.
Qed.

Lemma insert_by_sorted x l :
  StronglySorted (ascending key) l -> StronglySorted (ascending key) (insert_by key x l).
Proof.
  induction 1 as [|y l Hl IH Hy]; simpl.
  - repeat constructor.
  - destruct (Qle_bool (key x) (key y)) eqn:E.
    + apply Qle_bool_iff in E.
      constructor; [now constructor|].
      constructor; [exact E|].
      eapply Forall_impl; [exact Hy|].
      intros z Hz. unfold ascending in *. now apply Qle_trans with (key y).
    + assert (Hyx : (key y <= key x)%Q).
      { destruct (Qlt_le_dec (key y) (key x)) as [Hlt|Hle].
        - now apply Qlt_le_weak.
        - apply Qle_bool_iff in Hle. congruence. }
      constructor; [exact IH|].
      eapply Permutation_Forall; [symmetry; apply insert_by_perm|].
      now constructor.
Qed.

Lemma sort_ascending_sorted l : StronglySorted (ascending key) (sort_ascending key l).
Proof.
  induction l as [|x l IH]; simpl; [constructor|now apply insert_by_sorted].
Qed.

Lemma rev_sorted l :
  StronglySorted (ascending key) l -> nonincreasing key (rev l).
Proof.
  unfold nonincreasing.
  induction 1 as [|x l Hl IH Hx]; simpl; [constructor|].
  apply StronglySorted_app. split; [|split].
  - intros a b Ha Hb. apply list_elem_of_singleton in Hb. subst b.
    apply list_elem_of_In, in_rev in Ha.
    eapply List.Forall_forall in Hx; [exact Hx|exact Ha].
  - exact IH.
  - repeat constructor.
Qed.

(** The sort leaves the rows in non-increasing order of the column, and
    only reorders them. *)
Lemma sort_descending_nonincreasing l : nonincreasing key (sort_descending key l).
Proof. apply rev_sorted, sort_ascending_sorted. Qed.

Lemma sort_descending_length l : length (sort_descending key l) = length l.
Proof. apply Permutation_length, sort_descending_perm. Qed.

Lemma sort_descending_In x l : In x (sort_descending key l) <-> In x l.
Proof.
  split; apply Permutation_in; [|symmetry]; apply sort_descending_perm.
Qed.

End Sorting.

(** ** The store *)

Section Store.

Implicit Types (h : heap) (r : ref) (f : frame).

Lemma agrees_refl h : agrees h h.
Proof. now intros k _. Qed.

Lemma fresh_unused h : h !! fresh (dom h) = None.
Proof. apply not_elem_of_dom, is_fresh. Qed.

(** A new object is owned, whatever was there before. *)
Lemma alloc_owned h0 h f :
  agrees h0 h ->
  exists r h', alloc f h = (inr r, h') /\ owned h0 h' r f.
Proof.
  intros Hag. exists (fresh (dom h)), (<[fresh (dom h) := f]> h).
  split; [reflexivity|].
  assert (Hnew : h0 !! fresh (dom h) = None).
  { destruct (h0 !! fresh (dom h)) eqn:E; [|reflexivity].
    rewrite <- (Hag (fresh (dom h))), fresh_unused in E by (rewrite E; eauto).
    discriminate. }
  split; [apply lookup_insert_eq|split; [exact Hnew|]].
  intros k Hk. rewrite lookup_insert_ne; [now apply Hag|].
  intros <-. rewrite Hnew in Hk. now destruct Hk.
Qed.

Lemma df_select_owned h0 h r f mask :
  agrees h0 h -> h !! r = Some f ->
  exists r' h', df_select r mask h = (inr r', h')
                /\ owned h0 h' r' (List.filter mask f).
Proof.
  intros Hag Hr. unfold df_select, bind, get. rewrite Hr.
  now apply alloc_owned.
Qed.

Lemma df_head_owned h0 h r f n :
  agrees h0 h -> h !! r = Some f ->
  exists r' h', df_head r n h = (inr r', h') /\ owned h0 h' r' (head n f).
Proof.
  intros Hag Hr. unfold df_head, bind, get. rewrite Hr.
  now apply alloc_owned.
Qed.

(** The in-place sort changes the object it is called on and no other. *)
Lemma sort_values_inplace_owned h0 h r f key :
  owned h0 h r f ->
  exists h', sort_values_inplace r key h = (inr tt, h')
             /\ owned h0 h' r (sort_descending key f).
Proof.
  intros (Hr & Hnew & Hag).
  exists (<[r := sort_descending key f]> h).
  unfold sort_values_inplace, update. rewrite Hr.
  split; [reflexivity|].
  split; [apply lookup_insert_eq|split; [exact Hnew|]].
  intros k Hk. rewrite lookup_insert_ne; [now apply Hag|].
  intros E. subst. destruct Hk as [x Hx]. congruence.
Qed.

Lemma tone_step_owned h0 h r f tone :
  owned h0 h r f ->
  exists h',
    (if arg_eq tone (lit "Happy") then
       sort_values_inplace r (fun b => joy (csv b))
     else if arg_eq tone (lit "Surprising") then
       sort_values_inplace r (fun b => surprise (csv b))
     else if arg_eq tone (lit "Angry") then
       sort_values_inplace r (fun b => anger (csv b))
     else if arg_eq tone (lit "Suspenseful") then
       sort_values_inplace r (fun b => fear (csv b))
     else if arg_eq tone (lit "Sad") then
       sort_values_inplace r (fun b => sadness (csv b))
     else ret tt) h = (inr tt, h')
    /\ owned h0 h' r (tone_step tone f).
Proof.
  intros Hown. unfold tone_step, tone_column.
  repeat (destruct (arg_eq tone _);
          [now apply sort_values_inplace_owned|]).
  now exists h.
Qed.

End Store.

(** ** The query *)

Section Query.

Variable db_books : index.

Implicit Types (h : heap) (query : str) (category tone : option str).

(** With hits whose ISBNs parse, the call returns a new object that holds
    the rows of the three steps, and leaves every other object alone. *)
Lemma retrieve_run query category tone initial_top_k final_top_k h tbl books_list :
  h !! books = Some tbl ->
  traverse isbn_of_hit (db_books query initial_top_k) = inr books_list ->
  exists r h',
    retrieve_semantic_recommendations db_books query category tone
      initial_top_k final_top_k h = (inr r, h')
    /\ owned h h' r
         (tone_step tone
            (category_step category final_top_k
               (candidates tbl books_list initial_top_k))).
Proof.
  intros Hbooks Hhits.
  unfold retrieve_semantic_recommendations.
  unfold bind at 1. rewrite Hhits. cbn [lift ret].
  destruct (df_select_owned h h books tbl
              (fun b => isin books_list (isbn13 (csv b)))
              (agrees_refl h) Hbooks)
    as (r1 & h1 & E1 & Hr1 & _ & Hag1).
  unfold bind at 1. rewrite E1.
  destruct (df_head_owned h h1 r1 _ initial_top_k Hag1 Hr1)
    as (r2 & h2 & E2 & Hr2 & _ & Hag2).
  unfold bind at 1. rewrite E2.
  fold (candidates tbl books_list initial_top_k) in Hr2.
  assert (Hstep : exists r3 h3,
    (if negb (arg_eq category (lit "All")) then
       bind (df_select r2
               (fun b => cell_eq (simple_categories (csv b)) category))
            (fun same => df_head same final_top_k)
     else df_head r2 final_top_k) h2 = (inr r3, h3)
    /\ owned h h3 r3
         (category_step category final_top_k
            (candidates tbl books_list initial_top_k))).
  { unfold category_step.
    destruct (negb (arg_eq category (lit "All"))).
    - destruct (df_select_owned h h2 r2 _
                  (fun b => cell_eq (simple_categories (csv b)) category)
                  Hag2 Hr2)
        as (r3 & h3 & E3 & Hr3 & _ & Hag3).
      unfold bind. rewrite E3.
      now apply df_head_owned.
    - now apply df_head_owned. }
  destruct Hstep as (r3 & h3 & E3 & Hown3).
  unfold bind at 1. rewrite E3.
  destruct (tone_step_owned h h3 r3 _ tone Hown3) as (h4 & E4 & Hown4).
  unfold bind. rewrite E4.
  now exists r3, h4.
Qed.

(** A hit whose ISBN does not parse makes the call raise, with the store as
    it was. *)
Lemma retrieve_raises query category tone initial_top_k final_top_k h e :
  traverse isbn_of_hit (db_books query initial_top_k) = inl e ->
  retrieve_semantic_recommendations db_books query category tone
    initial_top_k final_top_k h = (inl e, h).
Proof.
  intros Hhits. unfold retrieve_semantic_recommendations.
  unfold bind at 1. now rewrite Hhits.
Qed.

Lemma retrieve_unbound_raises query category tone initial_top_k final_top_k h books_list :
  h !! books = None ->
  traverse isbn_of_hit (db_books query initial_top_k) = inr books_list ->
  retrieve_semantic_recommendations db_books query category tone
    initial_top_k final_top_k h = (inl NameError, h).
Proof.
  intros Hbooks Hhits. unfold retrieve_semantic_recommendations.
  unfold bind at 1. rewrite Hhits. cbn [lift ret].
  unfold bind at 1, df_select, bind, get. now rewrite Hbooks.
Qed.

(** What a returning call returns. *)
Lemma retrieve_returned query category tone initial_top_k final_top_k h tbl books_list :
  h !! books = Some tbl ->
  traverse isbn_of_hit (db_books query initial_top_k) = inr books_list ->
  returned (retrieve_semantic_recommendations db_books query category tone
              initial_top_k final_top_k h)
  = Some (tone_step tone
            (category_step category final_top_k
               (candidates tbl books_list initial_top_k))).
Proof.
  intros Hbooks Hhits.
  destruct (retrieve_run query category tone initial_top_k final_top_k
              h tbl books_list Hbooks Hhits) as (r & h' & E & Hr & _).
  rewrite E. exact Hr.
Qed.

(** A call that returns found the catalog and parsed every hit. *)
Lemma returned_inv query category tone initial_top_k final_top_k h rows :
  returned (retrieve_semantic_recommendations db_books query category tone
              initial_top_k final_top_k h) = Some rows ->
  exists tbl books_list,
    h !! books = Some tbl
    /\ traverse isbn_of_hit (db_books query initial_top_k) = inr books_list
    /\ rows = tone_step tone
                (category_step category final_top_k
                   (candidates tbl books_list initial_top_k)).
Proof.
  intros Hret.
  destruct (traverse isbn_of_hit (db_books query initial_top_k))
    as [e|books_list] eqn:Hhits.
  - rewrite (retrieve_raises _ _ _ _ _ _ e Hhits) in Hret. discriminate.
  - destruct (h !! books) as [tbl|] eqn:Hbooks.
    + exists tbl, books_list.
      rewrite (retrieve_returned _ _ _ _ _ _ tbl books_list Hbooks Hhits) in Hret.
      now inversion Hret.
    + rewrite (retrieve_unbound_raises _ _ _ _ _ _ books_list Hbooks Hhits) in Hret.
      discriminate.
Qed.

(** Raising or returning, the call leaves the objects it found as they
    were. *)
Lemma retrieve_agrees query category tone initial_top_k final_top_k h :
  agrees h (snd (retrieve_semantic_recommendations db_books query category
                   tone initial_top_k final_top_k h)).
Proof.
  destruct (traverse isbn_of_hit (db_books query initial_top_k))
    as [e|books_list] eqn:Hhits.
  - rewrite (retrieve_raises _ _ _ _ _ _ e Hhits). apply agrees_refl.
  - destruct (h !! books) as [tbl|] eqn:Hbooks.
    + destruct (retrieve_run query category tone initial_top_k final_top_k
                  h tbl books_list Hbooks Hhits) as (r & h' & E & _ & _ & Hag).
      rewrite E. exact Hag.
    + rewrite (retrieve_unbound_raises _ _ _ _ _ _ books_list Hbooks Hhits).
      apply agrees_refl.
Qed.

Lemma recommend_books_agrees query category tone h :
  agrees h (snd (recommend_books db_books query category tone h)).
Proof.
  pose proof (retrieve_agrees query category tone default_initial_top_k
                default_final_top_k h) as Hag.
  unfold recommend_books. unfold bind at 1.
  destruct (retrieve_semantic_recommendations db_books query category tone
              default_initial_top_k default_final_top_k h) as [[e|r] h'];
    [exact Hag|].
  unfold bind, get. simpl in Hag.
  destruct (h' !! r) as [rows|]; [|exact Hag].
  now destruct (traverse format_row rows).
Qed.

End Query.

(** ** The three steps, on rows *)

Section Steps.

Lemma isin_In values x : isin values x = true <-> In x values.
Proof.
  unfold isin. rewrite existsb_exists. split.
  - intros (y & Hy & E). apply Z.eqb_eq in E. now subst.
  - intros Hx. exists x. split; [exact Hx|apply Z.eqb_refl].
Qed.

Lemma cell_eq_true c value : cell_eq c value = true -> c = value.
Proof.
  destruct c as [a|], value as [b|]; simpl; try discriminate.
  intros E. apply bool_decide_eq_true in E. now subst.
Qed.

Lemma cell_eq_None c : cell_eq c None = false.
Proof. now destruct c. Qed.

Lemma arg_eq_false x s : x <> Some s -> arg_eq x s = false.
Proof.
  destruct x as [t|]; simpl; [|reflexivity].
  intros Hne. apply bool_decide_eq_false. congruence.
Qed.

Lemma candidates_In b tbl books_list n :
  In b (candidates tbl books_list n) ->
  In b tbl /\ In (isbn13 (csv b)) books_list.
Proof.
  unfold candidates. intros Hb. apply In_head, filter_In in Hb.
  destruct Hb as [Hb Hin]. now apply isin_In in Hin.
Qed.

Lemma traverse_length {A B : Type} (f : A -> result B) l ys :
  traverse f l = inr ys -> length ys = length l.
Proof.
  revert ys. induction l as [|x l IH]; intros ys; simpl.
  - intros E. now inversion E.
  - destruct (f x) as [e|y]; [discriminate|].
    destruct (traverse f l) as [e|ys']; [discriminate|].
    intros E. inversion E; subst. simpl. f_equal. now apply IH.
Qed.

Lemma NoDup_map_filter {A B : Type} (g : A -> B) (p : A -> bool) l :
  List.NoDup (List.map g l) -> List.NoDup (List.map g (List.filter p l)).
Proof.
  induction l as [|x l IH]; simpl; intros Hnd; [constructor|].
  inversion Hnd as [|? ? Hx Hl]; subst.
  destruct (p x); simpl; [|now apply IH].
  constructor; [|now apply IH].
  intros Hin. apply Hx. apply in_map_iff in Hin.
  destruct Hin as (y & <- & Hy). apply filter_In in Hy.
  apply in_map. tauto.
Qed.

(** When the ISBNs of the catalog are pairwise distinct and there are at
    most [initial_top_k] hits, the cut to [initial_top_k] removes no
    candidate. *)
Lemma cut_keeps_all tbl books_list n :
  List.NoDup (List.map (fun b => isbn13 (csv b)) tbl) ->
  Z.of_nat (length books_list) <= n ->
  candidates tbl books_list n
  = List.filter (fun b => isin books_list (isbn13 (csv b))) tbl.
Proof.
  intros Hnd Hlen. unfold candidates. apply head_all.
  pose proof (NoDup_map_filter (fun b => isbn13 (csv b))
                (fun b => isin books_list (isbn13 (csv b))) tbl Hnd) as Hnd'.
  assert (Hincl : incl (List.map (fun b => isbn13 (csv b))
                          (List.filter
                             (fun b => isin books_list (isbn13 (csv b))) tbl))
                       books_list).
  { intros z Hz. apply in_map_iff in Hz. destruct Hz as (b & <- & Hb).
    apply filter_In in Hb. now apply isin_In. }
  pose proof (NoDup_incl_length Hnd' Hincl) as Hle.
  rewrite length_map in Hle. lia.
Qed.

Lemma category_step_In b category n recs :
  In b (category_step category n recs) ->
  In b recs
  /\ (category <> Some (lit "All") -> simple_categories (csv b) = category).
Proof.
  unfold category_step. intros Hb.
  destruct (arg_eq category (lit "All")) eqn:E; simpl in Hb.
  - apply In_head in Hb. split; [exact Hb|].
    intros Hne. now rewrite (arg_eq_false _ _ Hne) in E.
  - apply In_head, filter_In in Hb. destruct Hb as [Hb Hc].
    split; [exact Hb|]. intros _. now apply cell_eq_true.
Qed.

Lemma category_step_length category n recs :
  0 <= n -> Z.of_nat (length (category_step category n recs)) <= n.
Proof.
  intros Hn. unfold category_step.
  destruct (negb (arg_eq category (lit "All"))); now apply head_length.
Qed.

Lemma category_step_default n recs : category_step None n recs = [].
Proof.
  unfold category_step. simpl.
  replace (List.filter _ recs) with (@nil book); [apply head_nil|].
  induction recs as [|b recs IH]; simpl; [reflexivity|].
  now rewrite cell_eq_None.
Qed.

Lemma category_step_All n recs :
  category_step (Some (lit "All")) n recs = head n recs.
Proof. reflexivity. Qed.

Lemma tone_step_perm tone recs : Permutation (tone_step tone recs) recs.
Proof.
  unfold tone_step. destruct (tone_column tone); [|reflexivity].
  apply sort_descending_perm.
Qed.

Lemma tone_step_unrecognized tone recs :
  (forall label,
     In label [lit "Happy"; lit "Surprising"; lit "Angry";
               lit "Suspenseful"; lit "Sad"] ->
     tone <> Some label) ->
  tone_step tone recs = recs.
Proof.
  intros Hother. unfold tone_step, tone_column.
  repeat (rewrite arg_eq_false; [|apply Hother; simpl; tauto]).
  reflexivity.
Qed.

End Steps.

(** ** The properties of the query *)

(** C1: with the default pool sizes the frame returned by
    [retrieve_semantic_recommendations] has at most 16 rows, for every index,
    query, category, tone and store. *)
Theorem result_at_most_final_k (db_books : index) (query : str)
    (category tone : option str) (h : heap) (rows : frame) :
  returned (retrieve_semantic_recommendations db_books query category tone
              default_initial_top_k default_final_top_k h) = Some rows ->
  (length rows <= 16)%nat.
Proof.
  intros Hret. apply returned_inv in Hret.
  destruct Hret as (tbl & books_list & _ & _ & ->).
  rewrite (Permutation_length (tone_step_perm tone _)).
  pose proof (category_step_length category default_final_top_k
                (candidates tbl books_list default_initial_top_k)) as Hlen.
  unfold default_final_top_k in *. lia.
Qed.

Lemma result_at_most_final_k_witness :
  returned (retrieve_semantic_recommendations shelf_index
              (lit "a story about forgiveness") (Some (lit "All"))
              (Some (lit "All")) default_initial_top_k default_final_top_k
              shelf_store)
    = Some (load_books [dune; emma])
  /\ (length (load_books [dune; emma]) <= 16)%nat.
Proof.
  assert (H : returned (retrieve_semantic_recommendations shelf_index
                (lit "a story about forgiveness") (Some (lit "All"))
                (Some (lit "All")) default_initial_top_k default_final_top_k
                shelf_store)
              = Some (load_books [dune; emma])).
  { vm_compute. reflexivity. }
  split; [exact H|].
  exact (result_at_most_final_k _ _ _ _ _ _ H).
Defined.

(** C2: when the category argument is not "All", every row of the returned
    frame has that category in its category column. *)
Theorem result_in_requested_category (db_books : index) (query : str)
    (category tone : option str) (initial_top_k final_top_k : Z)
    (h : heap) (rows : frame) :
  category <> Some (lit "All") ->
  returned (retrieve_semantic_recommendations db_books query category tone
              initial_top_k final_top_k h) = Some rows ->
  forall b, In b rows -> simple_categories (csv b) = category.
Proof.
  intros Hcat Hret b Hb. apply returned_inv in Hret.
  destruct Hret as (tbl & books_list & _ & _ & ->).
  apply (Permutation_in _ (tone_step_perm tone _)) in Hb.
  apply category_step_In in Hb. now apply Hb.
Qed.

Lemma result_in_requested_category_witness :
  returned (retrieve_semantic_recommendations shelf_index
              (lit "a story about forgiveness") (Some (lit "Fiction"))
              (Some (lit "Happy")) 50 16 shelf_store)
    = Some (load_books [emma; dune])
  /\ forall b, In b (load_books [emma; dune]) ->
       simple_categories (csv b) = Some (lit "Fiction").
Proof.
  assert (H : returned (retrieve_semantic_recommendations shelf_index
                (lit "a story about forgiveness") (Some (lit "Fiction"))
                (Some (lit "Happy")) 50 16 shelf_store)
              = Some (load_books [emma; dune])).
  { vm_compute. reflexivity. }
  split; [exact H|].
  refine (result_in_requested_category _ _ _ _ _ _ _ _ _ H).
  discriminate.
Defined.

(** C3: when the tone is one of the five labels, the column it selects is
    non-increasing down the returned rows; with any other tone ("All", none,
    or unknown) the returned rows are those of the category step, in its
    order. *)
Theorem tone_orders_result (db_books : index) (query : str)
    (category tone : option str) (initial_top_k final_top_k : Z)
    (h : heap) (tbl : frame) (books_list : list Z) :
  h !! books = Some tbl ->
  traverse isbn_of_hit (db_books query initial_top_k) = inr books_list ->
  exists rows,
    returned (retrieve_semantic_recommendations db_books query category tone
                initial_top_k final_top_k h) = Some rows
    /\ (tone = Some (lit "Happy") -> nonincreasing (fun b => joy (csv b)) rows)
    /\ (tone = Some (lit "Surprising") ->
        nonincreasing (fun b => surprise (csv b)) rows)
    /\ (tone = Some (lit "Angry") -> nonincreasing (fun b => anger (csv b)) rows)
    /\ (tone = Some (lit "Suspenseful") ->
        nonincreasing (fun b => fear (csv b)) rows)
    /\ (tone = Some (lit "Sad") -> nonincreasing (fun b => sadness (csv b)) rows)
    /\ ((forall label,
           In label [lit "Happy"; lit "Surprising"; lit "Angry";
                     lit "Suspenseful"; lit "Sad"] ->
           tone <> Some label) ->
        rows = category_step category final_top_k
                 (candidates tbl books_list initial_top_k)).
Proof.
  intros Hbooks Hhits. eexists. split.
  - exact (retrieve_returned _ _ _ _ _ _ _ tbl books_list Hbooks Hhits).
  - repeat split; try (intros ->; apply sort_descending_nonincreasing).
    apply tone_step_unrecognized.
Qed.

Lemma tone_orders_result_witness :
  exists rows,
    returned (retrieve_semantic_recommendations shelf_index
                (lit "a story about forgiveness") (Some (lit "All"))
                (Some (lit "Happy")) 50 16 shelf_store) = Some rows
    /\ nonincreasing (fun b => joy (csv b)) rows.
Proof.
  destruct (tone_orders_result shelf_index (lit "a story about forgiveness")
              (Some (lit "All")) (Some (lit "Happy")) 50 16 shelf_store shelf
              [9780000000003; 9780000000001; 9780000000009]
              eq_refl eq_refl)
    as (rows & Hret & Hjoy & _).
  exists rows. split; [exact Hret|]. now apply Hjoy.
Defined.

(** With a catalog that repeats an ISBN the cut to [initial_top_k] does
    remove candidates: there the default call returns fewer than 16 rows,
    although 16 catalog rows have the category and an ISBN among the hits. *)
Lemma fewer_than_final_k_despite_matches :
  exists (tbl : frame) (db_books : index) (query category : str)
         (books_list : list Z) (rows : frame),
    (forall q k, 0 <= k -> Z.of_nat (length (db_books q k)) <= k)
    /\ traverse isbn_of_hit (db_books query default_initial_top_k)
       = inr books_list
    /\ returned (retrieve_semantic_recommendations db_books query
                   (Some category) (Some (lit "All"))
                   default_initial_top_k default_final_top_k
                   {[ books := tbl ]}) = Some rows
    /\ (length rows < 16)%nat
    /\ (16 <= length
                (List.filter
                   (fun b => isin books_list (isbn13 (csv b))
                             && cell_eq (simple_categories (csv b))
                                        (Some category))
                   tbl))%nat.
Proof.
  exists reprints, reprints_index, (lit "odes"), (lit "Poetry"),
    [9780000000001; 9780000000004], [].
  split; [|split; [|split; [|split]]].
  - intros q k Hk. unfold reprints_index. now apply head_length.
  - vm_compute. reflexivity.
  - vm_compute. reflexivity.
  - simpl. lia.
  - vm_compute. lia.
Qed.

(** C5, counterexample: a hit whose content does not start with an ISBN makes
    the call raise instead of returning. *)
Lemma untagged_hit_raises :
  fst (retrieve_semantic_recommendations untagged_index
         (lit "a story about forgiveness") (Some (lit "All"))
         (Some (lit "All")) default_initial_top_k default_final_top_k
         shelf_store) = inl ValueError.
Proof. vm_compute. reflexivity. Qed.

(** C5, as amended: when every hit starts with an ISBN that [int] accepts,
    the call returns; every returned row is a catalog row whose ISBN is among
    the hits, so a hit without a catalog row contributes nothing; and when no
    catalog row has the ISBN of a hit, the returned frame is empty. *)
Theorem unmatched_hits_dropped (db_books : index) (query : str)
    (category tone : option str) (initial_top_k final_top_k : Z)
    (h : heap) (tbl : frame) (books_list : list Z) :
  h !! books = Some tbl ->
  traverse isbn_of_hit (db_books query initial_top_k) = inr books_list ->
  exists rows,
    returned (retrieve_semantic_recommendations db_books query category tone
                initial_top_k final_top_k h) = Some rows
    /\ (forall b, In b rows -> In b tbl /\ In (isbn13 (csv b)) books_list)
    /\ ((forall b, In b tbl -> ~ In (isbn13 (csv b)) books_list) -> rows = []).
Proof.
  intros Hbooks Hhits. eexists.
  split; [exact (retrieve_returned _ _ _ _ _ _ _ tbl books_list Hbooks Hhits)|].
  assert (Hin : forall b,
    In b (tone_step tone (category_step category final_top_k
                            (candidates tbl books_list initial_top_k))) ->
    In b tbl /\ In (isbn13 (csv b)) books_list).
  { intros b Hb.
    apply (Permutation_in _ (tone_step_perm tone _)) in Hb.
    apply category_step_In in Hb. destruct Hb as [Hb _].
    now apply candidates_In in Hb. }
  split; [exact Hin|].
  intros Hnone.
  destruct (tone_step tone _) as [|b rows]; [reflexivity|].
  destruct (Hin b (or_introl eq_refl)) as [Hb Hisbn].
  now destruct (Hnone b Hb).
Qed.

Lemma unmatched_hits_dropped_witness :
  exists rows,
    returned (retrieve_semantic_recommendations shelf_index
                (lit "a story about forgiveness") (Some (lit "All"))
                (Some (lit "All")) 50 16 shelf_store) = Some rows
    /\ (forall b, In b rows ->
          In b shelf
          /\ In (isbn13 (csv b)) [9780000000003; 9780000000001; 9780000000009]).
Proof.
  destruct (unmatched_hits_dropped shelf_index (lit "a story about forgiveness")
              (Some (lit "All")) (Some (lit "All")) 50 16 shelf_store shelf
              [9780000000003; 9780000000001; 9780000000009]
              eq_refl eq_refl)
    as (rows & Hret & Hin & _).
  exists rows. now split.
Defined.

(** C9: neither [retrieve_semantic_recommendations] nor [recommend_books]
    changes the global [books]: it holds the same rows after the call as
    before, whether the call returns or raises, and also when the tone sorts
    in place (the sort runs on an object made during the call). *)
Theorem books_never_mutated (db_books : index) (query : str)
    (category tone : option str) (initial_top_k final_top_k : Z) (h : heap) :
  snd (retrieve_semantic_recommendations db_books query category tone
         initial_top_k final_top_k h) !! books = h !! books
  /\ snd (recommend_books db_books query category tone h) !! books
     = h !! books.
Proof.
  pose proof (retrieve_agrees db_books query category tone initial_top_k
                final_top_k h books) as H1.
  pose proof (recommend_books_agrees db_books query category tone h books) as H2.
  destruct (h !! books) as [tbl|] eqn:Hbooks.
  - split; [apply H1|apply H2]; eauto.
  - split.
    + destruct (traverse isbn_of_hit (db_books query initial_top_k))
        as [e|books_list] eqn:Hhits.
      * now rewrite (retrieve_raises _ _ _ _ _ _ _ e Hhits).
      * now rewrite (retrieve_unbound_raises _ _ _ _ _ _ _ books_list Hbooks Hhits).
    + unfold recommend_books. unfold bind at 1.
      destruct (traverse isbn_of_hit (db_books query default_initial_top_k))
        as [e|books_list] eqn:Hhits.
      * now rewrite (retrieve_raises _ _ _ _ _ _ _ e Hhits).
      * now rewrite (retrieve_unbound_raises _ _ _ _ _ _ _ books_list Hbooks Hhits).
Qed.

(** C10: called without a category, the function gets [None], which is not
    "All": the filter branch compares every category with [None], so a call
    that returns returns an empty frame, whatever the query, the tone and the
    hits, and it does return when the ISBNs of the hits parse; with "All"
    passed, the rows are not filtered by category. *)
Theorem default_category_returns_nothing (db_books : index) (query : str)
    (tone : option str) (initial_top_k final_top_k : Z) (h : heap) :
  arg_eq None (lit "All") = false
  /\ (forall rows,
        returned (retrieve_semantic_recommendations db_books query None tone
                    initial_top_k final_top_k h) = Some rows ->
        rows = [])
  /\ (forall tbl books_list,
        h !! books = Some tbl ->
        traverse isbn_of_hit (db_books query initial_top_k) = inr books_list ->
        returned (retrieve_semantic_recommendations db_books query None tone
                    initial_top_k final_top_k h) = Some []
        /\ returned (retrieve_semantic_recommendations db_books query
                       (Some (lit "All")) tone initial_top_k final_top_k h)
           = Some (tone_step tone
                     (head final_top_k
                        (candidates tbl books_list initial_top_k)))).
Proof.
  assert (Hempty : forall recs,
            tone_step tone (category_step None final_top_k recs) = []).
  { intros recs. rewrite category_step_default.
    apply Permutation_nil. symmetry. apply tone_step_perm. }
  split; [reflexivity|]. split.
  - intros rows Hret. apply returned_inv in Hret.
    destruct Hret as (tbl & books_list & _ & _ & ->). apply Hempty.
  - intros tbl books_list Hbooks Hhits.
    rewrite !(retrieve_returned _ _ _ _ _ _ _ tbl books_list Hbooks Hhits).
    now rewrite Hempty.
Qed.

Lemma default_category_returns_nothing_witness :
  returned (retrieve_semantic_recommendations shelf_index
              (lit "a story about forgiveness") None None
              default_initial_top_k default_final_top_k shelf_store)
  = Some [].
Proof.
  exact (proj1 (proj2 (proj2 (default_category_returns_nothing shelf_index
                                (lit "a story about forgiveness") None
                                default_initial_top_k default_final_top_k
                                shelf_store))
                 shelf [9780000000003; 9780000000001; 9780000000009]
                 eq_refl eq_refl)).
Defined.

(** ** More on the formatter *)

Section Tokens.

Lemma separated_blank d : Forall (fun c => is_space c = true) d -> separated d [].
Proof.
induction 1 as [|c d Hc _ IH]; [constructor|].
now apply separated_space.
Qed.

Lemma separated_nil_blank d ts :
  separated d ts -> ts = [] -> Forall (fun c => is_space c = true) d.
Proof.
induction 1 as [|c d ts Hc _ IH|]; intros E; [constructor| |discriminate].
constructor; [exact Hc|now apply IH].
Qed.

Lemma split_ws_blank d :
  split_ws d = [] <-> Forall (fun c => is_space c = true) d.
Proof.
split.
- intros E. apply (separated_nil_blank d (split_ws d)); [|exact E].
  apply separated_split_ws.
- intros Hd. now apply separated_split_ws_eq, separated_blank.
Qed.

(** The tokens of a split are non-empty and free of whitespace. *)
Lemma separated_tokens d ts :
  separated d ts ->
  Forall (fun t => t <> [] /\ Forall (fun c => is_space c = false) t) ts.
Proof.
induction 1 as [| |t d ts Hne Ht _ _ IH]; [constructor|assumption|].
constructor; [now split|exact IH].
Qed.

Lemma separated_join ts :
  Forall (fun t => t <> [] /\ Forall (fun c => is_space c = false) t) ts ->
  separated (join (lit " ") ts) ts.
Proof.
induction 1 as [|t ts [Hne Ht] Hts IH]; [constructor|].
destruct ts as [|u ts].
- simpl. rewrite <- (app_nil_r t) at 1.
  apply separated_token; [assumption|assumption|now left|constructor].
- rewrite join_cons. apply separated_token; [assumption|assumption| |].
  + right. now exists 32%N, (join (lit " ") (u :: ts)).
  + now apply separated_space.
Qed.

Lemma Forall_firstn {A : Type} (P : A -> Prop) n l :
  Forall P l -> Forall P (firstn n l).
Proof.
intros Hl. revert n. induction Hl as [|x l Hx _ IH]; intros [|n]; simpl;
  constructor; auto.
Qed.

Lemma join_spaces ts :
  Forall (fun t => t <> [] /\ Forall (fun c => is_space c = false) t) ts ->
  Forall (fun c => is_space c = true -> c = 32%N) (join (lit " ") ts).
Proof.
induction 1 as [|t ts [_ Ht] Hts IH]; [constructor|].
assert (Htok : Forall (fun c => is_space c = true -> c = 32%N) t).
{ eapply Forall_impl; [exact Ht|]. intros c Hc E. congruence. }
destruct ts as [|u ts]; [exact Htok|].
rewrite join_cons. apply Forall_app. split; [exact Htok|].
apply Forall_app. split; [|exact IH].
repeat constructor.
Qed.

End Tokens.

(** X1: a description that is empty or all whitespace is shown as the bare
    ellipsis. *)
Theorem truncate_description_blank (d : str) :
  Forall (fun c => is_space c = true) d ->
  truncate_description d = lit "...".
Proof.
intros Hd. unfold truncate_description.
now rewrite (proj2 (split_ws_blank d) Hd).
Qed.

Lemma truncate_description_blank_witness :
  truncate_description (lit "   ") = lit "...".
Proof.
apply truncate_description_blank. repeat constructor.
Defined.

(** X2: in the truncated description every whitespace character is a plain
    space: tabs, line breaks and runs of blanks of the description are
    gone. *)
Theorem truncate_description_spaces (d : str) :
  Forall (fun c => is_space c = true -> c = 32%N) (truncate_description d).
Proof.
unfold truncate_description. apply Forall_app. split.
- apply join_spaces, Forall_firstn.
  apply (separated_tokens d), separated_split_ws.
- repeat constructor; discriminate.
Qed.

(** X3: a description of at most 30 words separated by single spaces is kept
    as it is, with the ellipsis added. *)
Theorem truncate_description_keeps_short (tokens : list str) :
  Forall (fun t => t <> [] /\ Forall (fun c => is_space c = false) t) tokens ->
  (length tokens <= 30)%nat ->
  truncate_description (join (lit " ") tokens)
  = join (lit " ") tokens ++ lit "...".
Proof.
intros Htok Hlen. unfold truncate_description.
rewrite (separated_split_ws_eq _ _ (separated_join tokens Htok)).
now rewrite firstn_all2.
Qed.

Lemma truncate_description_keeps_short_witness :
  truncate_description (lit "of mice and men") = lit "of mice and men...".
Proof.
refine (truncate_description_keeps_short
          [lit "of"; lit "mice"; lit "and"; lit "men"] _ _).
- repeat constructor; discriminate.
- simpl. lia.
Defined.

Section Names.

Variable sep : char.

Lemma plain_app a b : plain sep a -> plain sep b -> plain sep (a ++ b).
Proof. intros Ha Hb. apply Forall_app. now split. Qed.

Lemma plain_join glue names :
  plain sep glue -> Forall (plain sep) names -> plain sep (join glue names).
Proof.
intros Hglue. induction 1 as [|t names Ht Hnames IH]; [constructor|].
destruct names as [|u names]; [exact Ht|].
rewrite join_cons. auto using plain_app.
Qed.

Lemma Forall_removelast {A : Type} (P : A -> Prop) l :
  Forall P l -> Forall P (removelast l).
Proof.
induction 1 as [|x l Hx Hl IH]; [constructor|].
simpl. destruct l; [constructor|]. now constructor.
Qed.

Lemma Forall_last {A : Type} (P : A -> Prop) l d :
  Forall P l -> P d -> P (List.last l d).
Proof.
induction 1 as [|x l Hx Hl IH]; intros Hd; [exact Hd|].
simpl. destruct l; [exact Hx|]. now apply IH.
Qed.

End Names.

(** X4: the author phrase never contains a semicolon, whatever the authors
    cell holds. *)
Theorem author_phrase_no_semicolon (authors : str) :
  plain semicolon (author_phrase authors).
Proof.
pose proof (join_split_on semicolon authors) as Hjoin.
destruct (split_on_fields semicolon authors) as [Hne Hplain].
unfold author_phrase.
destruct (split_on semicolon authors) as [|a [|b [|c rest]]] eqn:E;
  [congruence| | |].
- change (plain semicolon authors). rewrite <- Hjoin.
  now inversion Hplain; subst.
- change (plain semicolon (a ++ lit " and " ++ b)).
  inversion Hplain as [|? ? Ha Hb']; subst.
  inversion Hb' as [|? ? Hb _]; subst.
  apply plain_app; [exact Ha|]. apply plain_app; [|exact Hb].
  unfold plain. vm_compute. repeat constructor.
- change ((length (a :: b :: c :: rest) =? 2)%nat) with false.
  change ((2 <? length (a :: b :: c :: rest))%nat) with true. cbv iota.
  apply plain_app; [|apply plain_app].
  + apply plain_join; [|now apply Forall_removelast].
    unfold plain. vm_compute. repeat constructor.
  + unfold plain. vm_compute. repeat constructor.
  + apply Forall_last; [exact Hplain|constructor].
Qed.

(** X5: authors that end in a semicolon count as two, the second empty: the
    phrase is the name followed by " and ". *)
Theorem author_phrase_trailing_semicolon (a : str) :
  plain semicolon a ->
  author_phrase (a ++ [semicolon]) = a ++ lit " and ".
Proof.
intros Ha. unfold author_phrase.
change (a ++ [semicolon]) with (join [semicolon] [a; []]).
rewrite split_on_join; [|discriminate|repeat constructor; assumption].
change (a ++ lit " and " ++ [] = a ++ lit " and ").
now rewrite app_nil_r.
Qed.

Lemma author_phrase_trailing_semicolon_witness :
  author_phrase (lit "Ann Author;") = lit "Ann Author and ".
Proof.
refine (author_phrase_trailing_semicolon (lit "Ann Author") _).
repeat constructor.
Defined.

(** ** The ISBN of a hit *)

Section Tags.

Lemma lstrip_stop p c s b :
  p c = false -> lstrip p (s ++ c :: b) = lstrip p s ++ c :: b.
Proof.
intros Hc. induction s as [|x s IH]; simpl; [now rewrite Hc|].
destruct (p x); [exact IH|reflexivity].
Qed.

Lemma lstrip_all p quotes s :
  Forall (fun c => p c = true) quotes -> lstrip p (quotes ++ s) = lstrip p s.
Proof.
induction 1 as [|c quotes Hc _ IH]; simpl; [reflexivity|].
now rewrite Hc.
Qed.

Lemma lstrip_kept p s : Forall (fun c => p c = false) s -> lstrip p s = s.
Proof. intros [|c s' Hc _]; simpl; [reflexivity|now rewrite Hc]. Qed.

Lemma strip_kept p s : Forall (fun c => p c = false) s -> strip p s = s.
Proof.
intros Hs. unfold strip. rewrite (lstrip_kept p s Hs).
rewrite lstrip_kept by now apply Forall_rev.
apply rev_involutive.
Qed.

(** What [strip] leaves of leading quotes, a token and what follows it. *)
Lemma strip_quoted_token p quotes x t c rest :
  Forall (fun q => p q = true) quotes -> p x = false -> p c = false ->
  strip p (quotes ++ (x :: t) ++ c :: rest)
  = (x :: t) ++ c :: rev (lstrip p (rev rest)).
Proof.
intros Hq Hx Hc. unfold strip.
rewrite (lstrip_all p quotes _ Hq).
change (lstrip p ((x :: t) ++ c :: rest)) with
  (if p x then lstrip p (t ++ c :: rest) else (x :: t) ++ c :: rest).
rewrite Hx.
assert (Hrev : rev ((x :: t) ++ c :: rest) = rev rest ++ c :: rev (x :: t)).
{ rewrite rev_app_distr. change (rev (c :: rest)) with (rev rest ++ [c]).
  now rewrite <- app_assoc. }
rewrite Hrev, (lstrip_stop p c (rev rest) (rev (x :: t)) Hc).
rewrite rev_app_distr. change (rev (c :: rev (x :: t)))
  with (rev (rev (x :: t)) ++ [c]).
rewrite rev_involutive, <- app_assoc. reflexivity.
Qed.

Lemma split_ws_first t c rest :
  t <> [] -> Forall (fun a => is_space a = false) t -> is_space c = true ->
  split_ws (t ++ c :: rest) = t :: split_ws rest.
Proof.
intros Hne Ht Hc. apply separated_split_ws_eq.
apply separated_token; [assumption|assumption| |].
- right. now exists c, rest.
- apply separated_space; [exact Hc|apply separated_split_ws].
Qed.

Lemma digit_cases c :
  is_digit c = true ->
  is_space c = false /\ (c =? quote_char)%N = false
  /\ (c =? 45)%N = false /\ (c =? 43)%N = false.
Proof.
unfold is_digit. intros Hc. apply andb_true_iff in Hc. destruct Hc as [Hlo Hhi].
apply N.leb_le in Hlo, Hhi.
assert (Hc : In c [48; 49; 50; 51; 52; 53; 54; 55; 56; 57]%N) by (simpl; lia).
simpl in Hc. repeat (destruct Hc as [<-|Hc]; [now vm_compute|]).
destruct Hc.
Qed.

Lemma digits_from_digit c acc b s :
  is_digit c = true ->
  digits_from acc b (c :: s) = digits_from (10 * acc + Z.of_N (c - 48)) false s.
Proof. intros Hc. simpl. now rewrite Hc. Qed.

Lemma decimal_chars_digits d :
  Forall (fun c => is_digit c = true) (lit (NilEmpty.string_of_uint d)).
Proof. induction d; constructor; solve [reflexivity|assumption]. Qed.

Lemma digits_from_pos d : forall p,
  digits_from (Zpos p) false (lit (NilEmpty.string_of_uint d))
  = Some (Zpos (Pos.of_uint_acc d p)).
Proof.
induction d as [|d IH|d IH|d IH|d IH|d IH|d IH|d IH|d IH|d IH|d IH]; intros p;
  [reflexivity|..].
all: unfold lit; cbn [NilEmpty.string_of_uint list_ascii_of_string List.map].
all: match goal with
  | |- context [N_of_ascii ?a] =>
      let c := eval vm_compute in (N_of_ascii a) in
      change (N_of_ascii a) with c
  end.
all: rewrite digits_from_digit by reflexivity.
all: cbn [Pos.of_uint_acc].
all: match goal with
  | |- digits_from ?z false _ = Some (Zpos (Pos.of_uint_acc _ ?q)) =>
      replace z with (Zpos q) by lia
  end.
all: apply IH.
Qed.

Lemma digits_from_zero d :
  digits_from 0 false (lit (NilEmpty.string_of_uint d))
  = Some (Z.of_N (N.of_uint d)).
Proof.
induction d as [|d IH|d IH|d IH|d IH|d IH|d IH|d IH|d IH|d IH|d IH];
  [reflexivity|..].
all: unfold lit; cbn [NilEmpty.string_of_uint list_ascii_of_string List.map].
all: match goal with
  | |- context [N_of_ascii ?a] =>
      let c := eval vm_compute in (N_of_ascii a) in
      change (N_of_ascii a) with c
  end.
all: rewrite digits_from_digit by reflexivity.
- exact IH.
- apply (digits_from_pos d 1).
- apply (digits_from_pos d 2).
- apply (digits_from_pos d 3).
- apply (digits_from_pos d 4).
- apply (digits_from_pos d 5).
- apply (digits_from_pos d 6).
- apply (digits_from_pos d 7).
- apply (digits_from_pos d 8).
- apply (digits_from_pos d 9).
Qed.

Lemma decimal_nonempty n : decimal n <> [].
Proof.
unfold decimal. destruct n as [|p]; [discriminate|].
pose proof (DecimalPos.Unsigned.to_uint_nonnil p) as Hne.
cbn [N.to_uint]. now destruct (Pos.to_uint p).
Qed.

Lemma filter_all {A : Type} (p : A -> bool) l :
  Forall (fun x => p x = true) l -> List.filter p l = l.
Proof.
induction 1 as [|x l Hx _ IH]; simpl; [reflexivity|].
now rewrite Hx, IH.
Qed.

(** [int] reads back what [str] writes. *)
Lemma int_of_str_decimal n :
  (length (decimal n) <= max_str_digits)%nat ->
  int_of_str (decimal n) = inr (Z.of_N n).
Proof.
intros Hlen.
pose proof (decimal_chars_digits (N.to_uint n)) as Hdig.
fold (decimal n) in Hdig.
pose proof (decimal_nonempty n) as Hne.
unfold int_of_str.
rewrite strip_kept
  by (eapply Forall_impl; [exact Hdig|]; intros c Hc; now apply digit_cases).
destruct (decimal n) as [|c s] eqn:E; [congruence|].
inversion Hdig as [|? ? Hc _]; subst.
destruct (digit_cases c Hc) as (_ & _ & Hminus & Hplus).
rewrite Hminus, Hplus.
unfold unsigned_of_str. rewrite Hc, (filter_all is_digit _ Hdig).
apply Nat.leb_le in Hlen. rewrite Hlen. cbn [andb].
rewrite <- E. unfold decimal. rewrite digits_from_zero.
now rewrite DecimalN.Unsigned.of_to.
Qed.

Lemma traverse_first_failure {A B : Type} (f : A -> result B) good bad rest e :
  Forall (fun x => exists y, f x = inr y) good -> f bad = inl e ->
  traverse f (good ++ bad :: rest) = inl e.
Proof.
intros Hgood Hbad. induction Hgood as [|x good [y Hy] _ IH]; simpl.
- now rewrite Hbad.
- now rewrite Hy, IH.
Qed.

Lemma hit_first_token quotes t c rest :
  Forall (fun q => q = quote_char) quotes ->
  List.hd quote_char t <> quote_char ->
  Forall (fun a => is_space a = false) t ->
  is_space c = true ->
  first_item (split_ws (strip (N.eqb quote_char) (quotes ++ t ++ c :: rest)))
  = inr t.
Proof.
intros Hq Hhd Ht Hc.
destruct t as [|x t]; [now destruct Hhd|]. simpl in Hhd.
rewrite strip_quoted_token.
- now rewrite split_ws_first.
- eapply Forall_impl; [exact Hq|]. now intros q ->.
- now apply N.eqb_neq.
- destruct (N.eqb_spec quote_char c) as [<-|]; [discriminate|reflexivity].
Qed.

Lemma decimal_plain n :
  List.hd quote_char (decimal n) <> quote_char
  /\ Forall (fun a => is_space a = false) (decimal n).
Proof.
pose proof (decimal_chars_digits (N.to_uint n)) as Hdig.
fold (decimal n) in Hdig.
pose proof (decimal_nonempty n) as Hne.
split.
- destruct (decimal n) as [|x t]; [congruence|].
  inversion Hdig as [|? ? Hx _]; subst.
  destruct (digit_cases x Hx) as (_ & Hquote & _).
  simpl. now apply N.eqb_neq.
- eapply Forall_impl; [exact Hdig|]. intros a Ha. now apply digit_cases.
Qed.

End Tags.

(** X6: the ISBN of a hit depends on its first token alone: double quotes
    before it and everything from the first whitespace on are ignored. *)
Theorem isbn_of_hit_first_token (quotes t rest : str) (c : char) :
  Forall (fun q => q = quote_char) quotes ->
  List.hd quote_char t <> quote_char ->
  Forall (fun a => is_space a = false) t ->
  is_space c = true ->
  isbn_of_hit (quotes ++ t ++ c :: rest) = int_of_str t.
Proof.
intros Hq Hhd Ht Hc. unfold isbn_of_hit.
now rewrite hit_first_token.
Qed.

Lemma isbn_of_hit_first_token_witness :
  isbn_of_hit ([quote_char] ++ lit "9780000000001" ++ 32%N :: lit "A desert planet")
  = int_of_str (lit "9780000000001").
Proof.
apply isbn_of_hit_first_token.
- repeat constructor.
- vm_compute. discriminate.
- repeat constructor.
- reflexivity.
Defined.

(** X7: a line that starts with the decimal ISBN and a whitespace character
    maps back to that ISBN. *)
Theorem isbn_of_hit_decimal (n : N) (c : char) (rest : str) :
  (length (decimal n) <= 4300)%nat ->
  is_space c = true ->
  isbn_of_hit (decimal n ++ c :: rest) = inr (Z.of_N n).
Proof.
intros Hlen Hc. destruct (decimal_plain n) as [Hhd Hplain].
unfold isbn_of_hit.
change (decimal n ++ c :: rest) with ([] ++ decimal n ++ c :: rest).
rewrite hit_first_token by (assumption || constructor).
now apply int_of_str_decimal.
Qed.

Lemma isbn_of_hit_decimal_witness :
  isbn_of_hit (decimal 9780000000001 ++ 32%N :: lit "A desert planet")
  = inr 9780000000001.
Proof.
refine (isbn_of_hit_decimal 9780000000001%N 32%N (lit "A desert planet") _ _).
- vm_compute. lia.
- reflexivity.
Defined.

(** X8: a hit raises IndexError exactly when nothing but whitespace is left
    of its content once the double quotes at both ends are stripped. *)
Theorem isbn_of_hit_index_error (page_content : str) :
  isbn_of_hit page_content = inl IndexError
  <-> Forall (fun c => is_space c = true)
        (strip (N.eqb quote_char) page_content).
Proof.
rewrite <- split_ws_blank. unfold isbn_of_hit.
destruct (split_ws (strip (N.eqb quote_char) page_content)) as [|tok toks].
- now split.
- cbn [first_item]. split; [|discriminate].
  unfold int_of_str.
  now destruct (match strip is_space tok with [] => _ | _ => _ end).
Qed.

(** X9: the call raises the exception of the first hit whose ISBN does not
    parse, and leaves the store as it was. *)
Theorem retrieve_raises_first_failure (db_books : index) (query : str)
    (category tone : option str) (initial_top_k final_top_k : Z) (h : heap)
    (good rest : list str) (bad : str) (e : exn) :
  db_books query initial_top_k = good ++ bad :: rest ->
  Forall (fun hit => exists z, isbn_of_hit hit = inr z) good ->
  isbn_of_hit bad = inl e ->
  retrieve_semantic_recommendations db_books query category tone
    initial_top_k final_top_k h = (inl e, h).
Proof.
intros Hhits Hgood Hbad. apply retrieve_raises.
rewrite Hhits. now apply traverse_first_failure.
Qed.

Lemma retrieve_raises_first_failure_witness :
  retrieve_semantic_recommendations
    (fun _ _ => [lit "9780000000001 A desert planet"; lit "   "; lit "x"])
    (lit "dunes") (Some (lit "All")) None 50 16 shelf_store
  = (inl IndexError, shelf_store).
Proof.
refine (retrieve_raises_first_failure _ _ _ _ _ _ _
          [lit "9780000000001 A desert planet"] [lit "x"] (lit "   ")
          IndexError _ _ _).
- reflexivity.
- constructor; [|constructor]. exists 9780000000001. reflexivity.
- reflexivity.
Defined.

(** ** More on the query *)

Section Rows.

Lemma head_length_min {A : Type} (n : Z) (l : list A) :
  0 <= n -> Z.of_nat (length (head n l)) = Z.min n (Z.of_nat (length l)).
Proof.
intros Hn. unfold head.
destruct (0 <=? n) eqn:E; [|lia].
rewrite length_firstn. lia.
Qed.

Lemma sublist_filter_bool {A : Type} (p : A -> bool) (l : list A) :
  List.filter p l `sublist_of` l.
Proof.
induction l as [|x l IH]; simpl; [constructor|].
destruct (p x); [now apply sublist_skip|now apply sublist_cons].
Qed.

Lemma sublist_head {A : Type} (n : Z) (l : list A) : head n l `sublist_of` l.
Proof. unfold head. destruct (0 <=? n); apply sublist_take. Qed.

Lemma candidates_sublist tbl books_list n :
  candidates tbl books_list n `sublist_of` tbl.
Proof.
unfold candidates. etransitivity; [apply sublist_head|].
apply sublist_filter_bool.
Qed.

Lemma category_step_sublist category n recs :
  category_step category n recs `sublist_of` recs.
Proof.
unfold category_step. destruct (negb (arg_eq category (lit "All"))).
- etransitivity; [apply sublist_head|apply sublist_filter_bool].
- apply sublist_head.
Qed.

Lemma candidates_same_isbns tbl l1 l2 n :
  (forall z, In z l1 <-> In z l2) ->
  candidates tbl l1 n = candidates tbl l2 n.
Proof.
intros Hsame. unfold candidates. f_equal.
apply filter_ext_in. intros b _.
destruct (isin l1 (isbn13 (csv b))) eqn:E1, (isin l2 (isbn13 (csv b))) eqn:E2;
  try reflexivity.
- apply isin_In, Hsame, isin_In in E1. congruence.
- apply isin_In, Hsame, isin_In in E2. congruence.
Qed.

Lemma all_rows_length tbl books_list tone initial_top_k final_top_k :
  0 <= initial_top_k -> 0 <= final_top_k ->
  Z.of_nat
    (length (tone_step tone
               (category_step (Some (lit "All")) final_top_k
                  (candidates tbl books_list initial_top_k))))
  = Z.min final_top_k
      (Z.min initial_top_k
         (Z.of_nat
            (length (List.filter
                       (fun b => isin books_list (isbn13 (csv b))) tbl)))).
Proof.
intros Hik Hfk.
rewrite (Permutation_length (tone_step_perm tone _)), category_step_All.
unfold candidates. now rewrite !head_length_min.
Qed.

End Rows.

(** X10: the rows returned do not depend on the rank order of the hits nor
    on repeated hits: two indexes whose hits carry the same ISBNs give the
    same rows. *)
Theorem retrieve_ignores_rank (db1 db2 : index) (query : str)
    (category tone : option str) (initial_top_k final_top_k : Z) (h : heap)
    (l1 l2 : list Z) :
  traverse isbn_of_hit (db1 query initial_top_k) = inr l1 ->
  traverse isbn_of_hit (db2 query initial_top_k) = inr l2 ->
  (forall z, In z l1 <-> In z l2) ->
  returned (retrieve_semantic_recommendations db1 query category tone
              initial_top_k final_top_k h)
  = returned (retrieve_semantic_recommendations db2 query category tone
                initial_top_k final_top_k h).
Proof.
intros H1 H2 Hsame. destruct (h !! books) as [tbl|] eqn:Hbooks.
- rewrite (retrieve_returned db1 _ _ _ _ _ _ tbl l1 Hbooks H1).
  rewrite (retrieve_returned db2 _ _ _ _ _ _ tbl l2 Hbooks H2).
  now rewrite (candidates_same_isbns tbl l1 l2 _ Hsame).
- rewrite (retrieve_unbound_raises db1 _ _ _ _ _ _ l1 Hbooks H1).
  now rewrite (retrieve_unbound_raises db2 _ _ _ _ _ _ l2 Hbooks H2).
Qed.

Lemma retrieve_ignores_rank_witness :
  returned (retrieve_semantic_recommendations shelf_index (lit "q")
              (Some (lit "All")) None 50 16 shelf_store)
  = returned (retrieve_semantic_recommendations
                (fun _ _ => [lit "9780000000009 x"; lit "9780000000001 y";
                             lit "9780000000003 z"; lit "9780000000001 y"])
                (lit "q") (Some (lit "All")) None 50 16 shelf_store).
Proof.
refine (retrieve_ignores_rank shelf_index
          (fun _ _ => [lit "9780000000009 x"; lit "9780000000001 y";
                       lit "9780000000003 z"; lit "9780000000001 y"])
          (lit "q") (Some (lit "All")) None 50 16 shelf_store
          [9780000000003; 9780000000001; 9780000000009]
          [9780000000009; 9780000000001; 9780000000003; 9780000000001]
          eq_refl eq_refl _).
intros z. simpl. tauto.
Defined.

(** X11: without a tone sort the rows come in catalog order, whatever the
    rank of the hits: they are a subsequence of the catalog. *)
Theorem retrieve_catalog_order (db_books : index) (query : str)
    (category tone : option str) (initial_top_k final_top_k : Z) (h : heap)
    (tbl rows : frame) :
  (forall label,
     In label [lit "Happy"; lit "Surprising"; lit "Angry";
               lit "Suspenseful"; lit "Sad"] ->
     tone <> Some label) ->
  h !! books = Some tbl ->
  returned (retrieve_semantic_recommendations db_books query category tone
              initial_top_k final_top_k h) = Some rows ->
  rows `sublist_of` tbl.
Proof.
intros Htone Hbooks Hret. apply returned_inv in Hret.
destruct Hret as (tbl' & books_list & Hbooks' & _ & ->).
rewrite Hbooks in Hbooks'. inversion Hbooks'; subst tbl'.
rewrite tone_step_unrecognized by exact Htone.
etransitivity; [apply category_step_sublist|apply candidates_sublist].
Qed.

Lemma retrieve_catalog_order_witness :
  load_books [dune; emma] `sublist_of` shelf.
Proof.
refine (retrieve_catalog_order shelf_index (lit "q") (Some (lit "All")) None
          50 16 shelf_store shelf (load_books [dune; emma]) _ eq_refl _).
- intros label _. discriminate.
- vm_compute. reflexivity.
Defined.

(** X12: with category "All" and non-negative sizes the number of rows
    returned is the smallest of [final_top_k], [initial_top_k] and the number
    of catalog rows whose ISBN is among the hits. *)
Theorem retrieve_all_count (db_books : index) (query : str)
    (tone : option str) (initial_top_k final_top_k : Z) (h : heap)
    (tbl : frame) (books_list : list Z) :
  0 <= initial_top_k -> 0 <= final_top_k ->
  h !! books = Some tbl ->
  traverse isbn_of_hit (db_books query initial_top_k) = inr books_list ->
  exists rows,
    returned (retrieve_semantic_recommendations db_books query
                (Some (lit "All")) tone initial_top_k final_top_k h)
    = Some rows
    /\ Z.of_nat (length rows)
       = Z.min final_top_k
           (Z.min initial_top_k
              (Z.of_nat
                 (length (List.filter
                            (fun b => isin books_list (isbn13 (csv b)))
                            tbl)))).
Proof.
intros Hik Hfk Hbooks Hhits. eexists. split.
- exact (retrieve_returned _ _ _ _ _ _ _ tbl books_list Hbooks Hhits).
- now apply all_rows_length.
Qed.

Lemma retrieve_all_count_witness :
  exists rows,
    returned (retrieve_semantic_recommendations shelf_index (lit "q")
                (Some (lit "All")) None 50 1 shelf_store) = Some rows
    /\ Z.of_nat (length rows) = 1.
Proof.
destruct (retrieve_all_count shelf_index (lit "q") None 50 1 shelf_store shelf
            [9780000000003; 9780000000001; 9780000000009]
            ltac:(lia) ltac:(lia) eq_refl eq_refl) as (rows & Hret & Hlen).
exists rows. split; [exact Hret|]. rewrite Hlen. reflexivity.
Defined.

(** X13: for every non-negative [final_top_k], and every category and tone,
    at most [final_top_k] rows are returned; with 0 none. *)
Theorem retrieve_at_most_final_top_k (db_books : index) (query : str)
    (category tone : option str) (initial_top_k final_top_k : Z) (h : heap)
    (rows : frame) :
  0 <= final_top_k ->
  returned (retrieve_semantic_recommendations db_books query category tone
              initial_top_k final_top_k h) = Some rows ->
  Z.of_nat (length rows) <= final_top_k.
Proof.
intros Hfk Hret. apply returned_inv in Hret.
destruct Hret as (tbl & books_list & _ & _ & ->).
rewrite (Permutation_length (tone_step_perm tone _)).
now apply category_step_length.
Qed.

Lemma retrieve_at_most_final_top_k_witness :
  Z.of_nat (length (@nil book)) <= 0.
Proof.
refine (retrieve_at_most_final_top_k shelf_index (lit "q") (Some (lit "All"))
          None 50 0 shelf_store [] _ _).
- lia.
- vm_compute. reflexivity.
Defined.

(** X14: the tone sort only reorders: for every tone the rows returned are a
    permutation of the rows of the category step. *)
Theorem tone_sort_permutes (db_books : index) (query : str)
    (category tone : option str) (initial_top_k final_top_k : Z) (h : heap)
    (tbl : frame) (books_list : list Z) :
  h !! books = Some tbl ->
  traverse isbn_of_hit (db_books query initial_top_k) = inr books_list ->
  exists rows,
    returned (retrieve_semantic_recommendations db_books query category tone
                initial_top_k final_top_k h) = Some rows
    /\ Permutation rows
         (category_step category final_top_k
            (candidates tbl books_list initial_top_k)).
Proof.
intros Hbooks Hhits. eexists. split.
- exact (retrieve_returned _ _ _ _ _ _ _ tbl books_list Hbooks Hhits).
- apply tone_step_perm.
Qed.

Lemma tone_sort_permutes_witness :
  exists rows,
    returned (retrieve_semantic_recommendations shelf_index (lit "q")
                (Some (lit "All")) (Some (lit "Happy")) 50 16 shelf_store)
    = Some rows
    /\ Permutation rows (load_books [dune; emma]).
Proof.
exact (tone_sort_permutes shelf_index (lit "q") (Some (lit "All"))
         (Some (lit "Happy")) 50 16 shelf_store shelf
         [9780000000003; 9780000000001; 9780000000009] eq_refl eq_refl).
Defined.

(** X15: with category "All", positive sizes and a catalog row whose ISBN is
    among the hits, the frame returned is not empty. *)
Theorem retrieve_all_nonempty (db_books : index) (query : str)
    (tone : option str) (initial_top_k final_top_k : Z) (h : heap)
    (tbl : frame) (books_list : list Z) (b : book) :
  0 < initial_top_k -> 0 < final_top_k ->
  h !! books = Some tbl ->
  traverse isbn_of_hit (db_books query initial_top_k) = inr books_list ->
  In b tbl -> In (isbn13 (csv b)) books_list ->
  exists row rows,
    returned (retrieve_semantic_recommendations db_books query
                (Some (lit "All")) tone initial_top_k final_top_k h)
    = Some (row :: rows).
Proof.
intros Hik Hfk Hbooks Hhits Hb Hisbn.
rewrite (retrieve_returned _ _ _ _ _ _ _ tbl books_list Hbooks Hhits).
pose proof (all_rows_length tbl books_list tone initial_top_k final_top_k
              ltac:(lia) ltac:(lia)) as Hlen.
assert (Hmatch : In b (List.filter
                         (fun b => isin books_list (isbn13 (csv b))) tbl)).
{ apply filter_In. split; [exact Hb|now apply isin_In]. }
destruct (List.filter _ tbl) as [|m ms] eqn:Em; [destruct Hmatch|].
destruct (tone_step tone _) as [|row rows]; [simpl in Hlen; lia|].
now exists row, rows.
Qed.

Lemma retrieve_all_nonempty_witness :
  exists row rows,
    returned (retrieve_semantic_recommendations shelf_index (lit "q")
                (Some (lit "All")) None 50 16 shelf_store)
    = Some (row :: rows).
Proof.
refine (retrieve_all_nonempty shelf_index (lit "q") None 50 16 shelf_store
          shelf [9780000000003; 9780000000001; 9780000000009]
          (nth 0 shelf {| csv := dune; large_thumbnail := [] |})
          _ _ eq_refl eq_refl _ _).
- lia.
- lia.
- simpl. now left.
- simpl. tauto.
Defined.

(** ** The gallery *)

Section Gallery.

Variable db_books : index.

Lemma traverse_Forall2 {A B : Type} (f : A -> result B) l ys :
  traverse f l = inr ys -> Forall2 (fun x y => f x = inr y) l ys.
Proof.
revert ys. induction l as [|x l IH]; intros ys; simpl.
- intros E. inversion E. constructor.
- destruct (f x) as [e|y] eqn:Ex; [discriminate|].
  destruct (traverse f l) as [e|ys']; [discriminate|].
  intros E. inversion E; subst. constructor; [exact Ex|now apply IH].
Qed.

Lemma traverse_all {A B : Type} (f : A -> result B) l :
  Forall (fun x => exists y, f x = inr y) l -> exists ys, traverse f l = inr ys.
Proof.
induction 1 as [|x l [y Hy] _ [ys IH]]; simpl; [now exists []|].
rewrite Hy, IH. now exists (y :: ys).
Qed.

Lemma traverse_one_error {A B : Type} (f : A -> result B) l e :
  (forall x e', f x = inl e' -> e' = e) ->
  Exists (fun x => f x = inl e) l -> traverse f l = inl e.
Proof.
intros Honly. induction 1 as [x l Hx|x l _ IH]; simpl.
- now rewrite Hx.
- destruct (f x) as [e'|y] eqn:Ex; [now rewrite (Honly x e' Ex)|].
  now rewrite IH.
Qed.

Lemma Forall2_Forall_r {A B : Type} (P : A -> B -> Prop) (Q : B -> Prop) l k :
  Forall2 P l k -> (forall x y, In x l -> P x y -> Q y) -> Forall Q k.
Proof.
induction 1 as [|x y l k Hxy _ IH]; intros HQ; constructor.
- apply (HQ x y); [now left|exact Hxy].
- apply IH. intros x' y' Hx'. apply HQ. now right.
Qed.

Lemma format_row_error row e : format_row row = inl e -> e = AttributeError.
Proof.
unfold format_row.
destruct (description (csv row)), (authors (csv row)); simpl; congruence.
Qed.

Lemma format_row_item row d a :
  description (csv row) = Some d -> authors (csv row) = Some a ->
  format_row row = inr (gallery_item row d a).
Proof. intros Hd Ha. unfold format_row. now rewrite Hd, Ha. Qed.

(** The formatter runs on the rows the query returns. *)
Lemma recommend_books_returned query category tone h rows :
  returned (retrieve_semantic_recommendations db_books query category tone
              default_initial_top_k default_final_top_k h) = Some rows ->
  fst (recommend_books db_books query category tone h)
  = traverse format_row rows.
Proof.
unfold recommend_books, returned. unfold bind at 1.
destruct (retrieve_semantic_recommendations db_books query category tone
            default_initial_top_k default_final_top_k h) as [[e|r] h'];
  [discriminate|].
intros Hr. unfold bind, get. rewrite Hr.
now destruct (traverse format_row rows).
Qed.

Lemma recommend_books_inv query category tone h pairs :
  fst (recommend_books db_books query category tone h) = inr pairs ->
  exists rows,
    returned (retrieve_semantic_recommendations db_books query category tone
                default_initial_top_k default_final_top_k h) = Some rows
    /\ traverse format_row rows = inr pairs.
Proof.
unfold recommend_books, returned. unfold bind at 1.
destruct (retrieve_semantic_recommendations db_books query category tone
            default_initial_top_k default_final_top_k h) as [[e|r] h'];
  [discriminate|].
unfold bind, get. destruct (h' !! r) as [rows|]; [|discriminate].
intros E. exists rows. split; [reflexivity|].
now destruct (traverse format_row rows).
Qed.

End Gallery.

(** X16: when every row the query returns has a description and authors,
    [recommend_books] returns one pair per row, in the order of the rows: the
    large thumbnail, and the caption made of the title, " by ", the author
    phrase, ": " and the truncated description. *)
Theorem recommend_books_pairs (db_books : index) (query : str)
    (category tone : option str) (h : heap) (rows : frame) :
  returned (retrieve_semantic_recommendations db_books query category tone
              default_initial_top_k default_final_top_k h) = Some rows ->
  Forall (fun row => is_Some (description (csv row))
                     /\ is_Some (authors (csv row))) rows ->
  exists pairs,
    fst (recommend_books db_books query category tone h) = inr pairs
    /\ Forall2
         (fun row pair =>
            exists d a,
              description (csv row) = Some d /\ authors (csv row) = Some a
              /\ pair = (large_thumbnail row,
                         format_cell (title (csv row)) ++ lit " by "
                           ++ author_phrase a ++ lit ": "
                           ++ truncate_description d))
         rows pairs.
Proof.
intros Hret Hcells.
rewrite (recommend_books_returned _ _ _ _ _ _ Hret).
destruct (traverse_all format_row rows) as [pairs Hpairs].
{ eapply Forall_impl; [exact Hcells|].
  intros row [[d Hd] [a Ha]]. exists (gallery_item row d a).
  now apply format_row_item. }
exists pairs. split; [exact Hpairs|].
apply traverse_Forall2 in Hpairs.
eapply Forall2_impl; [exact Hpairs|].
intros row pair Hrow. unfold format_row in Hrow.
destruct (description (csv row)) as [d|]; [|discriminate].
destruct (authors (csv row)) as [a|]; [|discriminate].
exists d, a. simpl in Hrow. now inversion Hrow.
Qed.

Lemma recommend_books_pairs_witness :
  exists pairs,
    fst (recommend_books shelf_index (lit "a story about forgiveness")
           (Some (lit "All")) (Some (lit "All")) shelf_store) = inr pairs
    /\ length (load_books [dune; emma]) = length pairs.
Proof.
destruct (recommend_books_pairs shelf_index (lit "a story about forgiveness")
            (Some (lit "All")) (Some (lit "All")) shelf_store
            (load_books [dune; emma]))
  as (pairs & Hrun & Hpairs).
- vm_compute. reflexivity.
- repeat constructor; eexists; reflexivity.
- exists pairs. split; [exact Hrun|].
  exact (Forall2_length _ _ _ Hpairs).
Defined.

(** X17: [recommend_books] never returns more than 16 pairs. *)
Theorem recommend_books_at_most_16 (db_books : index) (query : str)
    (category tone : option str) (h : heap) (pairs : list (str * str)) :
  fst (recommend_books db_books query category tone h) = inr pairs ->
  (length pairs <= 16)%nat.
Proof.
intros Hrun. apply recommend_books_inv in Hrun.
destruct Hrun as (rows & Hret & Hpairs).
rewrite (traverse_length _ _ _ Hpairs).
apply returned_inv in Hret.
destruct Hret as (tbl & books_list & _ & _ & ->).
rewrite (Permutation_length (tone_step_perm tone _)).
pose proof (category_step_length category default_final_top_k
              (candidates tbl books_list default_initial_top_k)) as Hlen.
unfold default_final_top_k in *. lia.
Qed.

Lemma recommend_books_at_most_16_witness :
  exists pairs,
    fst (recommend_books shelf_index (lit "a story about forgiveness")
           (Some (lit "All")) (Some (lit "All")) shelf_store) = inr pairs
    /\ (length pairs <= 16)%nat.
Proof.
eexists. split; [vm_compute; reflexivity|].
refine (recommend_books_at_most_16 shelf_index
          (lit "a story about forgiveness") (Some (lit "All"))
          (Some (lit "All")) shelf_store _ _).
vm_compute. reflexivity.
Defined.

(** X18: when a row the query returns lacks its description or its authors,
    [recommend_books] raises AttributeError and returns no pair at all. *)
Theorem recommend_books_missing_cell (db_books : index) (query : str)
    (category tone : option str) (h : heap) (rows : frame) :
  returned (retrieve_semantic_recommendations db_books query category tone
              default_initial_top_k default_final_top_k h) = Some rows ->
  Exists (fun row => description (csv row) = None
                     \/ authors (csv row) = None) rows ->
  fst (recommend_books db_books query category tone h) = inl AttributeError.
Proof.
intros Hret Hmissing.
rewrite (recommend_books_returned _ _ _ _ _ _ Hret).
apply traverse_one_error; [apply format_row_error|].
eapply Exists_impl; [exact Hmissing|].
intros row Hrow. now apply format_row_missing_cell.
Qed.

Lemma recommend_books_missing_cell_witness :
  fst (recommend_books stall_index (lit "a call") (Some (lit "All"))
         (Some (lit "All")) stall_store) = inl AttributeError.
Proof.
refine (recommend_books_missing_cell stall_index (lit "a call")
          (Some (lit "All")) (Some (lit "All")) stall_store
          (load_books [dune; pamphlet]) _ _).
- vm_compute. reflexivity.
- apply Exists_cons_tl, Exists_cons_hd. now right.
Defined.

(** X19: with the catalog as loaded, every image [recommend_books] returns
    is the placeholder path or the thumbnail URL of a catalog row followed by
    the suffix. *)
Theorem recommend_books_images (db_books : index) (query : str)
    (category tone : option str) (h : heap) (raw : list csv_row)
    (pairs : list (str * str)) :
  h !! books = Some (load_books raw) ->
  fst (recommend_books db_books query category tone h) = inr pairs ->
  Forall (fun pair =>
            fst pair = lit "cover-not-found.jpg"
            \/ exists r url,
                 In r raw /\ thumbnail r = Some url
                 /\ fst pair = url ++ lit "&fife=w800")
         pairs.
Proof.
intros Hbooks Hrun. apply recommend_books_inv in Hrun.
destruct Hrun as (rows & Hret & Hpairs).
apply returned_inv in Hret.
destruct Hret as (tbl & books_list & Hbooks' & _ & ->).
rewrite Hbooks in Hbooks'. inversion Hbooks'; subst tbl.
apply traverse_Forall2 in Hpairs.
apply (Forall2_Forall_r _ _ _ _ Hpairs). intros row pair Hrow Hfmt.
apply (Permutation_in _ (tone_step_perm tone _)) in Hrow.
apply category_step_In in Hrow. destruct Hrow as [Hrow _].
apply candidates_In in Hrow. destruct Hrow as [Hrow _].
unfold load_books in Hrow. apply in_map_iff in Hrow.
destruct Hrow as (r & <- & Hr).
unfold format_row in Hfmt. simpl in Hfmt.
destruct (description r); [|discriminate].
destruct (authors r); [|discriminate].
simpl in Hfmt. inversion Hfmt; subst pair. simpl.
destruct (thumbnail r) as [url|] eqn:Eu; [right|now left].
now exists r, url.
Qed.

Lemma recommend_books_images_witness :
  exists pairs,
    fst (recommend_books shelf_index (lit "a story about forgiveness")
           (Some (lit "All")) (Some (lit "All")) shelf_store) = inr pairs
    /\ Forall (fun pair =>
                 fst pair = lit "cover-not-found.jpg"
                 \/ exists r url,
                      In r [dune; cosmos; emma] /\ thumbnail r = Some url
                      /\ fst pair = url ++ lit "&fife=w800")
              pairs.
Proof.
eexists. split; [vm_compute; reflexivity|].
refine (recommend_books_images shelf_index (lit "a story about forgiveness")
          (Some (lit "All")) (Some (lit "All")) shelf_store
          [dune; cosmos; emma] _ eq_refl _).
vm_compute. reflexivity.
Defined.

(** ** The dropdown choices *)

Section Choices.

Lemma str_lt_irrefl a : str_lt a a = false.
Proof.
induction a as [|x a IH]; simpl; [reflexivity|].
now rewrite N.ltb_irrefl.
Qed.

Lemma str_lt_trans a : forall b c,
  str_lt a b = true -> str_lt b c = true -> str_lt a c = true.
Proof.
induction a as [|x a IH]; intros [|y b] [|z c]; simpl; try congruence.
destruct (N.ltb_spec x y), (N.ltb_spec y x), (N.ltb_spec y z),
  (N.ltb_spec z y), (N.ltb_spec x z), (N.ltb_spec z x);
  try congruence; try lia.
apply IH.
Qed.

Lemma str_lt_total a : forall b,
  str_lt b a = false -> str_lt a b = true \/ a = b.
Proof.
induction a as [|x a IH]; intros [|y b]; simpl; auto; try discriminate.
destruct (N.ltb_spec x y), (N.ltb_spec y x); try discriminate; try lia; auto.
assert (x = y) by lia. subst y.
intros Hba. destruct (IH b Hba) as [Hlt| ->]; auto.
Qed.

Lemma str_le_trans a b c :
  str_lt b a = false -> str_lt c b = false -> str_lt c a = false.
Proof.
intros Hab Hbc. destruct (str_lt c a) eqn:Hca; [|reflexivity].
destruct (str_lt_total a b Hab) as [Hlt| ->]; [|congruence].
now rewrite (str_lt_trans c a b Hca Hlt) in Hbc.
Qed.

Lemma insert_str_perm x l : Permutation (insert_str x l) (x :: l).
Proof.
induction l as [|y l IH]; simpl; [reflexivity|].
destruct (str_lt y x); [|reflexivity].
rewrite IH. apply perm_swap.
Qed.

Lemma sorted_perm l : Permutation (sorted l) l.
Proof.
induction l as [|x l IH]; simpl; [reflexivity|].
rewrite insert_str_perm. now constructor.
Qed.

Lemma insert_str_sorted x l :
  StronglySorted (fun a b => str_lt b a = false) l ->
  StronglySorted (fun a b => str_lt b a = false) (insert_str x l).
Proof.
induction 1 as [|y l Hl IH Hy]; simpl; [repeat constructor|].
destruct (str_lt y x) eqn:E.
- constructor; [exact IH|].
  eapply Permutation_Forall; [symmetry; apply insert_str_perm|].
  constructor; [|exact Hy].
  destruct (str_lt x y) eqn:E'; [|reflexivity].
  pose proof (str_lt_trans x y x E' E) as Hxx.
  rewrite str_lt_irrefl in Hxx. discriminate.
- constructor; [now constructor|].
  constructor; [exact E|].
  eapply Forall_impl; [exact Hy|].
  intros z Hz. now apply (str_le_trans x y z).
Qed.

Lemma sorted_sorted l : StronglySorted (fun a b => str_lt b a = false) (sorted l).
Proof.
induction l as [|x l IH]; simpl; [constructor|now apply insert_str_sorted].
Qed.

(** Distinct strings in order are in strict order. *)
Lemma sorted_strict l :
  List.NoDup l ->
  StronglySorted (fun a b => str_lt b a = false) l ->
  StronglySorted (fun a b => str_lt a b = true) l.
Proof.
intros Hnd. induction 1 as [|x l Hl IH Hx]; [constructor|].
inversion Hnd as [|? ? Hnotin Hnd']; subst.
constructor; [now apply IH|].
apply List.Forall_forall. intros y Hy.
eapply List.Forall_forall in Hx; [|exact Hy].
destruct (str_lt_total x y Hx) as [Hlt| ->]; [exact Hlt|contradiction].
Qed.

Lemma unique_In c l : In c (unique l) <-> In c l.
Proof.
induction l as [|d l IH]; simpl; [tauto|].
rewrite filter_In, IH. split.
- intros [->|[Hc _]]; auto.
- intros [->|Hc]; auto.
  destruct (decide (c = d)) as [->|Hne]; auto.
  right. split; [exact Hc|]. now rewrite bool_decide_eq_false_2.
Qed.

Lemma unique_NoDup l : List.NoDup (unique l).
Proof.
induction l as [|d l IH]; simpl; constructor.
- rewrite filter_In. intros [_ Hd].
  now rewrite bool_decide_eq_true_2 in Hd.
- now apply List.NoDup_filter.
Qed.

Lemma all_present_Some l :
  Forall is_Some l ->
  exists ss, all_present l = Some ss /\ l = List.map Some ss.
Proof.
induction 1 as [|c l [s ->] _ (ss & Hss & ->)]; [now exists []|].
exists (s :: ss). simpl. now rewrite Hss.
Qed.

Lemma all_present_None l : In None l -> all_present l = None.
Proof.
induction l as [|c l IH]; intros Hin; [destruct Hin|].
destruct c as [s|]; [|reflexivity].
destruct Hin as [Hin|Hin]; [discriminate|].
simpl. now rewrite IH.
Qed.

End Choices.

(** X20: when every catalog row has a category, the category choices are
    "All" followed by the categories of the catalog, each once, in strictly
    ascending order of their code points. *)
Theorem categories_sorted (tbl : frame) :
  Forall (fun b => is_Some (simple_categories (csv b))) tbl ->
  exists cs,
    categories tbl = inr (Some (lit "All") :: List.map Some cs)
    /\ StronglySorted (fun a b => str_lt a b = true) cs
    /\ (forall c, In c cs <->
                  exists b, In b tbl /\ simple_categories (csv b) = Some c).
Proof.
intros Hall. unfold categories.
set (cells := List.map (fun b => simple_categories (csv b)) tbl).
assert (Hcells : forall c, In c (unique cells) <->
                   exists b, In b tbl /\ simple_categories (csv b) = c).
{ intros c. rewrite unique_In. unfold cells. rewrite in_map_iff.
  split; intros (b & H1 & H2); exists b; tauto. }
assert (Hsome : Forall is_Some (unique cells)).
{ apply List.Forall_forall. intros c Hc.
  apply (proj1 (Hcells c)) in Hc. destruct Hc as (b & Hb & <-).
  eapply List.Forall_forall in Hall; [exact Hall|exact Hb]. }
destruct (all_present_Some _ Hsome) as (ss & Hss & Hmap).
rewrite Hss. exists (sorted ss). split; [reflexivity|]. split.
- apply sorted_strict; [|apply sorted_sorted].
  eapply Permutation_NoDup; [symmetry; apply sorted_perm|].
  pose proof (unique_NoDup cells) as Hnd. rewrite Hmap in Hnd.
  now apply NoDup_map_inv in Hnd.
- intros c. rewrite <- Hcells, Hmap. split.
  + intros Hc. apply in_map.
    now apply (Permutation_in _ (sorted_perm ss)).
  + intros Hc. apply in_map_iff in Hc. destruct Hc as (c' & E & Hc').
    inversion E; subst c'.
    now apply (Permutation_in _ (Permutation_sym (sorted_perm ss))).
Qed.

Lemma categories_sorted_witness :
  exists cs,
    categories shelf = inr (Some (lit "All") :: List.map Some cs)
    /\ StronglySorted (fun a b => str_lt a b = true) cs.
Proof.
destruct (categories_sorted shelf) as (cs & Hcs & Hsorted & _).
- repeat constructor; eexists; reflexivity.
- now exists cs.
Defined.

(** X21: when one catalog row has no category and another has one, building
    the category choices raises TypeError. *)
Theorem categories_missing_value (tbl : frame) (b1 b2 : book) (c : str) :
  In b1 tbl -> simple_categories (csv b1) = None ->
  In b2 tbl -> simple_categories (csv b2) = Some c ->
  categories tbl = inl TypeError.
Proof.
intros Hb1 Hnone Hb2 Hsome. unfold categories.
set (cells := List.map (fun b => simple_categories (csv b)) tbl).
assert (H1 : In None (unique cells)).
{ apply (proj2 (unique_In _ _)). unfold cells.
  apply in_map_iff. now exists b1. }
assert (H2 : In (Some c) (unique cells)).
{ apply (proj2 (unique_In _ _)). unfold cells.
  apply in_map_iff. now exists b2. }
rewrite (all_present_None _ H1).
destruct (unique cells) as [|x [|y l]]; [destruct H1| |reflexivity].
destruct H1 as [E1|[]], H2 as [E2|[]]. congruence.
Qed.

Lemma categories_missing_value_witness :
  categories (load_books
                [dune;
                 {| isbn13 := 9780000000006; title := None; authors := None;
                    description := None; simple_categories := None;
                    thumbnail := None; joy := 0; surprise := 0; anger := 0;
                    fear := 0; sadness := 0 |}])
  = inl TypeError.
Proof.
eapply (categories_missing_value _ _ _ (lit "Fiction")).
- right. left. reflexivity.
- reflexivity.
- left. reflexivity.
- reflexivity.
Defined.

(** X22: the tones that select a sort are exactly the tone choices other
    than "All". *)
Theorem tone_choices_recognized (tone : option str) :
  is_Some (tone_column tone)
  <-> exists label,
        In label tones /\ label <> lit "All" /\ tone = Some label.
Proof.
assert (Harg : forall s, arg_eq tone s = true -> tone = Some s).
{ intros s. destruct tone as [t|]; simpl; [|discriminate].
  intros E. apply bool_decide_eq_true in E. now subst. }
split.
- unfold tone_column. intros Hsome.
  destruct (arg_eq tone (lit "Happy")) eqn:E1;
    [exists (lit "Happy"); split; [simpl; tauto|split; [discriminate|auto]]|].
  destruct (arg_eq tone (lit "Surprising")) eqn:E2;
    [exists (lit "Surprising"); split; [simpl; tauto|split; [discriminate|auto]]|].
  destruct (arg_eq tone (lit "Angry")) eqn:E3;
    [exists (lit "Angry"); split; [simpl; tauto|split; [discriminate|auto]]|].
  destruct (arg_eq tone (lit "Suspenseful")) eqn:E4;
    [exists (lit "Suspenseful"); split; [simpl; tauto|split; [discriminate|auto]]|].
  destruct (arg_eq tone (lit "Sad")) eqn:E5;
    [exists (lit "Sad"); split; [simpl; tauto|split; [discriminate|auto]]|].
  now destruct Hsome.
- intros (label & Hin & Hne & ->).
  unfold tones in Hin. cbn [app In] in Hin.
  destruct Hin as [<-|[<-|[<-|[<-|[<-|[<-|[]]]]]]];
    [congruence|eexists; reflexivity..].
Qed.

(** ** The cut to the candidate pool, and the gallery of an unusual call *)

Lemma shelf_isbns_distinct :
  List.NoDup (List.map (fun b => isbn13 (csv b)) shelf).
Proof.
repeat constructor; simpl; intuition discriminate.
Qed.

(** X23: when the ISBNs of the catalog are pairwise distinct and the index
    returns at most [initial_top_k] hits, the cut to [initial_top_k] removes
    nothing: the category step runs on every catalog row whose ISBN is among
    the hits. *)
Theorem retrieve_cut_keeps_all (db_books : index) (query : str)
    (category tone : option str) (initial_top_k final_top_k : Z) (h : heap)
    (tbl : frame) (books_list : list Z) :
  List.NoDup (List.map (fun b => isbn13 (csv b)) tbl) ->
  Z.of_nat (length (db_books query initial_top_k)) <= initial_top_k ->
  h !! books = Some tbl ->
  traverse isbn_of_hit (db_books query initial_top_k) = inr books_list ->
  returned (retrieve_semantic_recommendations db_books query category tone
              initial_top_k final_top_k h)
  = Some (tone_step tone
            (category_step category final_top_k
               (List.filter (fun b => isin books_list (isbn13 (csv b))) tbl))).
Proof.
intros Hnd Hlen Hbooks Hhits.
rewrite (retrieve_returned _ _ _ _ _ _ _ tbl books_list Hbooks Hhits).
rewrite cut_keeps_all; [reflexivity|exact Hnd|].
now rewrite (traverse_length _ _ _ Hhits).
Qed.

Lemma retrieve_cut_keeps_all_witness :
  returned (retrieve_semantic_recommendations shelf_index (lit "q")
              (Some (lit "Fiction")) None 50 16 shelf_store)
  = Some (tone_step None
            (category_step (Some (lit "Fiction")) 16
               (List.filter
                  (fun b => isin [9780000000003; 9780000000001; 9780000000009]
                              (isbn13 (csv b)))
                  shelf))).
Proof.
refine (retrieve_cut_keeps_all shelf_index (lit "q") (Some (lit "Fiction"))
          None 50 16 shelf_store shelf
          [9780000000003; 9780000000001; 9780000000009]
          shelf_isbns_distinct _ eq_refl eq_refl).
vm_compute. discriminate.
Defined.

(** X24: under the same conditions, with a category other than "All" and a
    non-negative [final_top_k], the number of rows returned is the smaller of
    [final_top_k] and the number of catalog rows that have the category and
    an ISBN among the hits. *)
Theorem retrieve_category_count (db_books : index) (query : str)
    (category tone : option str) (initial_top_k final_top_k : Z) (h : heap)
    (tbl : frame) (books_list : list Z) :
  List.NoDup (List.map (fun b => isbn13 (csv b)) tbl) ->
  Z.of_nat (length (db_books query initial_top_k)) <= initial_top_k ->
  category <> Some (lit "All") ->
  0 <= final_top_k ->
  h !! books = Some tbl ->
  traverse isbn_of_hit (db_books query initial_top_k) = inr books_list ->
  exists rows,
    returned (retrieve_semantic_recommendations db_books query category tone
                initial_top_k final_top_k h) = Some rows
    /\ Z.of_nat (length rows)
       = Z.min final_top_k
           (Z.of_nat
              (length
                 (List.filter
                    (fun b => cell_eq (simple_categories (csv b)) category)
                    (List.filter
                       (fun b => isin books_list (isbn13 (csv b))) tbl)))).
Proof.
intros Hnd Hlen Hcat Hfk Hbooks Hhits. eexists. split.
- exact (retrieve_returned _ _ _ _ _ _ _ tbl books_list Hbooks Hhits).
- rewrite (Permutation_length (tone_step_perm tone _)).
  rewrite cut_keeps_all;
    [|exact Hnd|now rewrite (traverse_length _ _ _ Hhits)].
  unfold category_step. rewrite (arg_eq_false _ _ Hcat). cbn [negb].
  now apply head_length_min.
Qed.

Lemma retrieve_category_count_witness :
  exists rows,
    returned (retrieve_semantic_recommendations shelf_index (lit "q")
                (Some (lit "Fiction")) None 50 1 shelf_store) = Some rows
    /\ Z.of_nat (length rows) = 1.
Proof.
destruct (retrieve_category_count shelf_index (lit "q")
            (Some (lit "Fiction")) None 50 1 shelf_store shelf
            [9780000000003; 9780000000001; 9780000000009]
            shelf_isbns_distinct)
  as (rows & Hret & Hrows);
  [vm_compute; discriminate|discriminate|lia|reflexivity|reflexivity|].
exists rows. split; [exact Hret|]. rewrite Hrows. reflexivity.
Defined.

(** X25: when [recommend_books] is given no category ([None]) and the ISBNs
    of the hits parse, it returns the empty list: no pair and no error. *)
Theorem recommend_books_no_category (db_books : index) (query : str)
    (tone : option str) (h : heap) (tbl : frame) (books_list : list Z) :
  h !! books = Some tbl ->
  traverse isbn_of_hit (db_books query default_initial_top_k) = inr books_list ->
  fst (recommend_books db_books query None tone h) = inr [].
Proof.
intros Hbooks Hhits.
rewrite (recommend_books_returned db_books query None tone h []);
  [reflexivity|].
rewrite (retrieve_returned _ _ _ _ _ _ _ tbl books_list Hbooks Hhits).
rewrite category_step_default. f_equal.
apply Permutation_nil. symmetry. apply tone_step_perm.
Qed.

Lemma recommend_books_no_category_witness :
  fst (recommend_books shelf_index (lit "q") None (Some (lit "Sad"))
         shelf_store) = inr [].
Proof.
exact (recommend_books_no_category shelf_index (lit "q") (Some (lit "Sad"))
         shelf_store shelf [9780000000003; 9780000000001; 9780000000009]
         eq_refl eq_refl).
Defined.

(** X26: when the ISBN of a hit does not parse, [recommend_books] raises the
    exception of the query and leaves the store as it was. *)
Theorem recommend_books_propagates (db_books : index) (query : str)
    (category tone : option str) (h : heap) (e : exn) :
  traverse isbn_of_hit (db_books query default_initial_top_k) = inl e ->
  recommend_books db_books query category tone h = (inl e, h).
Proof.
intros Hhits. unfold recommend_books. unfold bind at 1.
now rewrite (retrieve_raises _ _ _ _ _ _ _ e Hhits).
Qed.

Lemma recommend_books_propagates_witness :
  recommend_books untagged_index (lit "q") (Some (lit "All"))
    (Some (lit "All")) shelf_store = (inl ValueError, shelf_store).
Proof.
exact (recommend_books_propagates untagged_index (lit "q") (Some (lit "All"))
         (Some (lit "All")) shelf_store ValueError eq_refl).
Defined.

(** ** The category filter and the cut to the candidate pool *)

Section Cut.





End Cut.



